(** * Quantization parameters and data transform of [quant_utils.py]

    A shallow embedding of the numeric core of
    [onnxruntime/python/tools/quantization/quant_utils.py]:
    the range tables, [get_qmin_qmax_for_qType], [compute_scale_zp],
    [compute_scale_zp_float8], [quantize_nparray] and [quantize_data].

    Numbers.  Python and numpy floating-point values are modelled by exact
    rationals ([Q]), extended by the two infinities and NaN where the code
    can produce them from finite data (a division by a zero scale, the
    standard deviation of an empty array).  Rounding error of the binary32
    and binary64 formats is not modelled, and zero carries no sign.
    Rationals are compared with [==] ([Qeq]).

    Errors.  A Python exception is a [Raise e] result; the functions are
    written in the error monad, in the order the source evaluates.

    Libraries.  The functions of numpy and onnx that the source calls
    ([numpy.sqrt] inside [numpy.std], the E4M3FN decoder, the
    [QuantizeLinear] kernel, the out-of-range behaviour of [astype]) are
    the fields of the class [Runtime].  Theorems are stated for every
    runtime; runs on explicit inputs use [reference_runtime]. *)

From Stdlib Require Import ZArith QArith Qround Qabs List Bool Lia Lqa.
Import ListNotations.

Local Open Scope Z_scope.

(** ** Exceptions and results *)

(** The two [RuntimeError]s of [quantize_data], told apart by their message.
    The NaN report carries the four numbers its f-string prints. *)
Inductive runtime_message : Type :=
| UnsupportedReduceRange
| QuantizedValueIsNaN (data_min data_max : Q) (quantized_min quantized_max : Z).

Inductive exn : Type :=
| AssertionError
| ValueError
| NotImplementedError
| ZeroDivisionError
| RuntimeError (msg : runtime_message).

Inductive result (A : Type) : Type :=
| Ok (a : A)
| Raise (e : exn).

Arguments Ok {A} a.
Arguments Raise {A} e.

Definition bind {A B : Type} (m : result A) (k : A -> result B) : result B :=
  match m with
  | Ok a => k a
  | Raise e => Raise e
  end.

Notation "x <- m ;; k" := (bind m (fun x => k))
  (at level 61, m at next level, right associativity).
Notation "' p <- m ;; k" := (bind m (fun x => let p := x in k))
  (at level 61, p pattern, m at next level, right associativity).

(** ** Element types *)

(** [onnx.TensorProto.DataType]; the enumeration is closed. *)
Inductive TensorProto : Type :=
| UNDEFINED | FLOAT | UINT8 | INT8 | UINT16 | INT16 | INT32 | INT64
| STRING | BOOL | FLOAT16 | DOUBLE | UINT32 | UINT64 | COMPLEX64 | COMPLEX128
| BFLOAT16 | FLOAT8E4M3FN | FLOAT8E4M3FNUZ | FLOAT8E5M2 | FLOAT8E5M2FNUZ.

Definition TensorProto_eqb (a b : TensorProto) : bool :=
  match a, b with
  | UNDEFINED, UNDEFINED | FLOAT, FLOAT | UINT8, UINT8 | INT8, INT8
  | UINT16, UINT16 | INT16, INT16 | INT32, INT32 | INT64, INT64
  | STRING, STRING | BOOL, BOOL | FLOAT16, FLOAT16 | DOUBLE, DOUBLE
  | UINT32, UINT32 | UINT64, UINT64 | COMPLEX64, COMPLEX64
  | COMPLEX128, COMPLEX128 | BFLOAT16, BFLOAT16
  | FLOAT8E4M3FN, FLOAT8E4M3FN | FLOAT8E4M3FNUZ, FLOAT8E4M3FNUZ
  | FLOAT8E5M2, FLOAT8E5M2 | FLOAT8E5M2FNUZ, FLOAT8E5M2FNUZ => true
  | _, _ => false
  end.

(** The numpy storage types of [ONNX_TYPE_TO_NP_TYPE].  [float8e4m3fn] is
    onnx's custom element type: one byte per element, holding the code. *)
Inductive np_dtype : Type :=
| int8 | uint8 | int16 | uint16 | float8e4m3fn.

Definition ONNX_TYPE_TO_NP_TYPE (qType : TensorProto) : option np_dtype :=
  match qType with
  | INT8 => Some int8
  | UINT8 => Some uint8
  | INT16 => Some int16
  | UINT16 => Some uint16
  | FLOAT8E4M3FN => Some float8e4m3fn
  | _ => None
  end.

(** ** Range tables *)

Definition ONNX_INT_TYPE_RANGE (qType : TensorProto) : option (Z * Z) :=
  match qType with
  | UINT8 => Some (0, 255)
  | INT8 => Some (-128, 127)
  | UINT16 => Some (0, 65535)
  | INT16 => Some (-32768, 32767)
  | _ => None
  end.

Definition ONNX_INT_TYPE_SYMMETRIC_RANGE (qType : TensorProto) : option (Z * Z) :=
  match qType with
  | INT8 => Some (-127, 127)
  | INT16 => Some (-32767, 32767)
  | _ => None
  end.

Definition ONNX_INT_TYPE_REDUCED_RANGE (qType : TensorProto) : option (Z * Z) :=
  match qType with
  | UINT8 => Some (0, 127)
  | INT8 => Some (-64, 64)
  | UINT16 => Some (0, 32767)
  | INT16 => Some (-16384, 16384)
  | _ => None
  end.

(** [get_qmin_qmax_for_qType(qType, reduce_range, symmetric)].  [dict.get]
    yields [None] for a missing key, which [if not qrange] turns into a
    [ValueError]. *)
Definition get_qmin_qmax_for_qType
    (qType : TensorProto) (reduce_range symmetric : bool) : result (Z * Z) :=
  if TensorProto_eqb qType FLOAT8E4M3FN then Raise NotImplementedError
  else
    let qrange :=
      if reduce_range then ONNX_INT_TYPE_REDUCED_RANGE qType
      else
        match symmetric, ONNX_INT_TYPE_SYMMETRIC_RANGE qType with
        | true, Some r => Some r
        | _, _ => ONNX_INT_TYPE_RANGE qType
        end in
    match qrange with
    | None => Raise ValueError
    | Some r => Ok r
    end.

(** The integer kinds, as [quantize_data] lists them. *)
Definition is_integer_kind (qType : TensorProto) : bool :=
  match qType with
  | INT8 | UINT8 | INT16 | UINT16 => true
  | _ => false
  end.

(** ** Rational arithmetic of the solver *)

Definition Qltb (x y : Q) : bool := negb (Qle_bool y x).

(** Python's two-argument [min(a, b)] and [max(a, b)]: the first argument
    is kept unless the second is strictly smaller (larger). *)
Definition py_min2 (a b : Q) : Q := if Qltb b a then b else a.
Definition py_max2 (a b : Q) : Q := if Qltb a b then b else a.

(** Python's [round(x)] to an integer and numpy's [rint]: ties go to the
    even neighbour. *)
Definition py_round (x : Q) : Z :=
  let f := Qfloor x in
  match ((x - inject_Z f) ?= (1 # 2))%Q with
  | Lt => f
  | Gt => f + 1
  | Eq => if Z.even f then f else f + 1
  end.

(** [numpy.finfo(numpy.float32).tiny], the smallest positive normal
    binary32 number, [2^-126]. *)
Definition float32_tiny : Q := 1 # (2 ^ 126).

(** Python's [a / b] on floats: a zero divisor raises.  ([rmin], [rmax] are
    taken to be Python floats, as in a call on a list of floats.) *)
Definition py_truediv (a b : Q) : result Q :=
  if Qeq_bool b 0 then Raise ZeroDivisionError else Ok (a / b)%Q.

(** [compute_scale_zp(rmin, rmax, qmin, qmax, symmetric)]; the returned
    list [[zero_point, scale]] is a pair. *)
Definition compute_scale_zp
    (rmin rmax : Q) (qmin qmax : Z) (symmetric : bool) : result (Z * Q) :=
  if (qmin >? 0) || (qmax <? 0) then Raise ValueError
  else
    let rmin := py_min2 rmin 0 in
    let rmax := py_max2 rmax 0 in
    let '(rmin, rmax) :=
      if symmetric then
        let absmax := py_max2 (Qabs rmin) (Qabs rmax) in
        (- absmax, absmax)%Q
      else (rmin, rmax) in
    scale <- py_truediv (rmax - rmin)%Q (inject_Z (qmax - qmin)) ;;
    if Qltb scale float32_tiny then Ok (0, 1%Q)
    else Ok (py_round (inject_Z qmin - rmin / scale)%Q, scale).

(** ** numpy values *)

(** An element of a floating-point numpy array: a rational, an infinity
    or NaN.  numpy arithmetic never raises; it yields inf or nan. *)
Inductive npfloat : Type :=
| Finite (q : Q)
| Inf (negative : bool)
| NaN.

Definition Qneg_b (x : Q) : bool := Qltb x 0.

(** Elementwise [a / b]. *)
Definition np_div (a b : npfloat) : npfloat :=
  match a, b with
  | NaN, _ | _, NaN => NaN
  | Finite x, Finite y =>
      if Qeq_bool y 0 then
        if Qeq_bool x 0 then NaN else Inf (Qneg_b x)
      else Finite (x / y)
  | Finite _, Inf _ => Finite 0
  | Inf s, Finite y => Inf (xorb s (Qneg_b y))
  | Inf _, Inf _ => NaN
  end.

(** [ndarray.round()]: [rint] on each element. *)
Definition np_round (a : npfloat) : npfloat :=
  match a with
  | Finite x => Finite (inject_Z (py_round x))
  | _ => a
  end.

(** [a + zero_point] for an integer [zero_point]. *)
Definition np_add_int (a : npfloat) (z : Z) : npfloat :=
  match a with
  | Finite x => Finite (x + inject_Z z)
  | _ => a
  end.

(** [numpy.clip(a, lo, hi)], which is [minimum(maximum(a, lo), hi)]: NaN
    passes through, and [hi] wins when [lo > hi]. *)
Definition np_clip (lo hi : Z) (a : npfloat) : npfloat :=
  match a with
  | Finite x => Finite (py_min2 (py_max2 x (inject_Z lo)) (inject_Z hi))
  | Inf false => Finite (inject_Z hi)
  | Inf true => Finite (inject_Z (Z.min lo hi))
  | NaN => NaN
  end.

(** The value range of an integer storage type. *)
Definition dtype_range (dt : np_dtype) : Z * Z :=
  match dt with
  | int8 => (-128, 127)
  | uint8 | float8e4m3fn => (0, 255)
  | int16 => (-32768, 32767)
  | uint16 => (0, 65535)
  end.

(** Truncation toward zero, the C conversion of a float to an integer. *)
Definition Qtrunc (x : Q) : Z :=
  if Qneg_b x then Qceiling x else Qfloor x.

(** A numpy array after the final cast: its storage type and its items. *)
Record ndarray : Type := { dtype : np_dtype; items : list Z }.

(** ** What numpy and onnx supply

    The functions below are called by the source and live in numpy and
    onnx.  The embedding is parametric in them. *)
Class Runtime : Type := {
  (** [numpy.sqrt], as used inside [numpy.std]. *)
  np_sqrt : Q -> Q;
  (** [onnx.numpy_helper.float8e4m3_to_float32], on a code 0..255. *)
  float8e4m3_to_float32 : Z -> npfloat;
  (** One element of the [QuantizeLinear] graph that [quantize_nparray]
      builds and runs through [ReferenceEvaluator]: the float8 code, a
      byte, of the input [x] under [scale] (zero point 0). *)
  QuantizeLinear_float8 : Q -> npfloat -> Z;
  (** What [astype] stores for a value that the target integer type cannot
      hold (NaN, or outside its range); C leaves this conversion
      undefined. *)
  astype_unrepresentable : np_dtype -> npfloat -> Z
}.

Section Embedding.
Context {RT : Runtime}.

(** [ndarray.astype(dtype)] from a float array to an integer one. *)
Definition astype (dt : np_dtype) (a : npfloat) : Z :=
  match a with
  | Finite x =>
      let z := Qtrunc x in
      let '(lo, hi) := dtype_range dt in
      if (lo <=? z) && (z <=? hi) then z else astype_unrepresentable dt a
  | _ => astype_unrepresentable dt a
  end.

(** Sums are kept in lowest terms, so that they evaluate quickly. *)
Definition Qsum (l : list Q) : Q := fold_left (fun acc x => Qred (acc + x)) l 0%Q.

Definition np_mean (l : list Q) : Q := (Qsum l / inject_Z (Z.of_nat (length l)))%Q.

(** [numpy.std(data)]: the square root of the mean squared deviation; the
    mean of an empty array is nan. *)
Definition numpy_std (data : list Q) : npfloat :=
  match data with
  | [] => NaN
  | _ =>
      let m := np_mean data in
      Finite (np_sqrt (np_mean (map (fun x => (x - m) * (x - m))%Q data)))
  end.

(** The items that are neither nan nor inf, as an array of reals. *)
Definition finite_values (l : list npfloat) : list Q :=
  flat_map (fun a => match a with Finite q => [q] | _ => [] end) l.

(** [compute_scale_zp_float8(element_type, std)].  [FLOAT8_DISTRIBUTIONS]
    memoises [values], which depends on [element_type] alone; the embedding
    recomputes it. *)
Definition compute_scale_zp_float8
    (element_type : TensorProto) (std : npfloat) : result (Z * npfloat) :=
  values <-
    (if TensorProto_eqb element_type FLOAT8E4M3FN then
       let all_values := map (fun i => float8e4m3_to_float32 (Z.of_nat i)) (seq 0 256) in
       Ok (finite_values all_values)
     else Raise ValueError) ;;
  let std_f8 := numpy_std values in
  let zero := 0 in
  let scale := np_div std std_f8 in
  Ok (zero, scale).

Definition is_float8_kind (qType : TensorProto) : bool :=
  match qType with
  | FLOAT8E4M3FN | FLOAT8E4M3FNUZ | FLOAT8E5M2 | FLOAT8E5M2FNUZ => true
  | _ => false
  end.

(** [quantize_nparray(qType, arr, scale, zero_point, low, high)]. *)
Definition quantize_nparray
    (qType : TensorProto) (arr : list Q) (scale : npfloat) (zero_point : Z)
    (low high : option Z) : result ndarray :=
  match ONNX_TYPE_TO_NP_TYPE qType with
  | None => Raise AssertionError
  | Some dtype =>
      if is_float8_kind qType then
        if negb (zero_point =? 0) then Raise NotImplementedError
        else
          Ok {| dtype := dtype;
                items := map (fun x => QuantizeLinear_float8 x scale) arr |}
      else
        '(qmin, qmax) <- get_qmin_qmax_for_qType qType false true ;;
        let cliplow := match low with Some l => Z.max qmin l | None => qmin end in
        let cliphigh := match high with Some h => Z.min qmax h | None => qmax end in
        let arr_fp32 :=
          map (fun x => np_add_int (np_round (np_div (Finite x) scale)) zero_point) arr in
        let arr_fp32 := map (np_clip cliplow cliphigh) arr_fp32 in
        Ok {| dtype := dtype; items := map (astype dtype) arr_fp32 |}
  end.

(** Python's [min(seq)] / [max(seq)] and [ndarray.min()] / [.max()]: the
    running extremum is replaced by a strictly better item; an empty
    argument raises [ValueError]. *)
Definition extremum {A : Type} (better : A -> A -> bool) (l : list A) : result A :=
  match l with
  | [] => Raise ValueError
  | x :: t => Ok (fold_left (fun m y => if better y m then y else m) t x)
  end.

Definition py_min : list Q -> result Q := extremum Qltb.
Definition py_max : list Q -> result Q := extremum (fun y m => Qltb m y).
Definition codes_min : list Z -> result Z := extremum Z.ltb.
Definition codes_max : list Z -> result Z := extremum (fun y m => Z.ltb m y).

(** The NaN test of [quantize_data]: the low seven bits of a code are all
    set. *)
Definition is_nan_code (b : Z) : bool := Z.land b 127 =? 127.

Definition nonempty {A : Type} (l : list A) : bool :=
  match l with [] => false | _ => true end.

(** [quantize_data(data, qType, symmetric, reduce_range)]; the result is the
    tuple [(rmin, rmax, zero_point, scale, quantized_data)]. *)
Definition quantize_data
    (data : list Q) (qType : TensorProto) (symmetric reduce_range : bool)
    : result (Q * Q * Z * npfloat * ndarray) :=
  let rmin := 0%Q in
  let rmax := 0%Q in
  let zero_point := 0 in
  let scale := Finite 1 in
  '(rmin, rmax) <-
    (if nonempty data then
       rmin <- py_min data ;; rmax <- py_max data ;; Ok (rmin, rmax)
     else Ok (rmin, rmax)) ;;
  if TensorProto_eqb qType FLOAT8E4M3FN then
    if reduce_range then Raise (RuntimeError UnsupportedReduceRange)
    else
      let std := numpy_std data in
      '(zero_point, scale) <- compute_scale_zp_float8 qType std ;;
      quantized_data <- quantize_nparray qType data scale zero_point None None ;;
      if existsb is_nan_code (items quantized_data) then
        dmin <- py_min data ;; dmax <- py_max data ;;
        cmin <- codes_min (items quantized_data) ;;
        cmax <- codes_max (items quantized_data) ;;
        Raise (RuntimeError (QuantizedValueIsNaN dmin dmax cmin cmax))
      else Ok (rmin, rmax, zero_point, scale, quantized_data)
  else if is_integer_kind qType then
    '(zero_point, scale) <-
      (if nonempty data then
         '(qmin, qmax) <- get_qmin_qmax_for_qType qType reduce_range symmetric ;;
         '(zero_point, scale) <- compute_scale_zp rmin rmax qmin qmax symmetric ;;
         Ok (zero_point, Finite scale)
       else Ok (zero_point, scale)) ;;
    quantized_data <- quantize_nparray qType data scale zero_point None None ;;
    Ok (rmin, rmax, zero_point, scale, quantized_data)
  else Raise ValueError.

(** ** Names for the parts of [quantize_data] *)

(** [numpy.std] of the finite E4M3FN values, the divisor of
    [compute_scale_zp_float8]. *)
Definition float8e4m3fn_std : npfloat :=
  numpy_std
    (finite_values (map (fun i => float8e4m3_to_float32 (Z.of_nat i)) (seq 0 256))).

(** The scale of the narrow-float path. *)
Definition float8_scale (data : list Q) : npfloat :=
  np_div (numpy_std data) float8e4m3fn_std.

(** The codes the kernel produces for [data]. *)
Definition float8_codes (data : list Q) : list Z :=
  map (fun x => QuantizeLinear_float8 x (float8_scale data)) data.

(** The range that [quantize_data] reports. *)
Definition data_range (data : list Q) : result (Q * Q) :=
  if nonempty data then
    rmin <- py_min data ;; rmax <- py_max data ;; Ok (rmin, rmax)
  else Ok (0%Q, 0%Q).

End Embedding.

(** ** A reference runtime

    Concrete stand-ins for the numpy and onnx functions, used to run the
    embedding on explicit inputs.  The general theorems below hold for
    every [Runtime]. *)

(** Square root to 64 binary digits after the point, rounded down. *)
Definition sqrt_2_64 (x : Q) : Q :=
  Z.sqrt (Qnum x * 4 ^ 64 / Zpos (Qden x)) # (2 ^ 64).

(** The E4M3FN format: sign bit, four exponent bits (bias 7), three
    mantissa bits; no infinities, and NaN is [S.1111.111]. *)
Definition float8e4m3fn_decode (i : Z) : npfloat :=
  let e := Z.land (Z.shiftr i 3) 15 in
  let m := Z.land i 7 in
  if (e =? 15) && (m =? 7) then NaN
  else
    let mag := if e =? 0 then m # 512 else ((8 + m) * 2 ^ e) # 1024 in
    Finite (if Z.testbit i 7 then - mag else mag)%Q.

Definition float8e4m3fn_value (c : Z) : Q :=
  match float8e4m3fn_decode c with Finite q => q | _ => 0%Q end.

(** The code in 0..126 whose value is nearest to [a >= 0]; a tie goes to
    the even code, and anything past the largest value 448 saturates. *)
Definition float8e4m3fn_nearest (a : Q) : Z :=
  fold_left
    (fun best i =>
       let c := Z.of_nat i in
       let d := Qabs (float8e4m3fn_value c - a) in
       let dbest := Qabs (float8e4m3fn_value best - a) in
       if Qltb d dbest || (Qeq_bool d dbest && Z.even c) then c else best)
    (seq 1 126) 0.

Definition float8e4m3fn_encode (a : npfloat) : Z :=
  match a with
  | NaN => 255
  | Inf s => (if s then 128 else 0) + 126
  | Finite q => (if Qneg_b q then 128 else 0) + float8e4m3fn_nearest (Qabs q)
  end.

(** Two's-complement wrap-around into the range of [dt]; NaN becomes 0. *)
Definition wrap_cast (dt : np_dtype) (a : npfloat) : Z :=
  match a with
  | Finite x =>
      let '(lo, hi) := dtype_range dt in
      (Qtrunc x - lo) mod (hi - lo + 1) + lo
  | _ => 0
  end.

#[export] Instance reference_runtime : Runtime := {|
  np_sqrt := sqrt_2_64;
  float8e4m3_to_float32 := float8e4m3fn_decode;
  QuantizeLinear_float8 := fun x scale => float8e4m3fn_encode (np_div (Finite x) scale);
  astype_unrepresentable := wrap_cast
|}.

(** ** Definitions used in the statements *)

(** The range tables as the specification words them: the reduced range
    first, then the symmetric one (signed kinds only), then the full one.
    Compared with the dictionaries of the source in
    [get_qmin_qmax_integer]. *)
Definition spec_table_range (qType : TensorProto) (reduce_range symmetric : bool) : Z * Z :=
  match qType with
  | UINT8 => if reduce_range then (0, 127) else (0, 255)
  | INT8 =>
      if reduce_range then (-64, 64)
      else if symmetric then (-127, 127) else (-128, 127)
  | UINT16 => if reduce_range then (0, 32767) else (0, 65535)
  | INT16 =>
      if reduce_range then (-16384, 16384)
      else if symmetric then (-32767, 32767) else (-32768, 32767)
  | _ => (0, 0)
  end.

(** The range [compute_scale_zp] works with: extended to contain zero,
    then made symmetric when asked. *)
Definition adjusted_range (rmin rmax : Q) (symmetric : bool) : Q * Q :=
  let lo := py_min2 rmin 0 in
  let hi := py_max2 rmax 0 in
  if symmetric then
    let absmax := py_max2 (Qabs lo) (Qabs hi) in (- absmax, absmax)%Q
  else (lo, hi).

(** The scale it computes before the degenerate-case test. *)
Definition computed_scale
    (rmin rmax : Q) (qmin qmax : Z) (symmetric : bool) : Q :=
  let '(lo, hi) := adjusted_range rmin rmax symmetric in
  ((hi - lo) / inject_Z (qmax - qmin))%Q.

(** The integer that the specification's formula gives for one element:
    round, shift by the zero point, clip.  Compared with the float
    pipeline of the source in [quantize_element]. *)
Definition spec_quantized_value (scale : Q) (zero_point cliplow cliphigh : Z) (x : Q) : Z :=
  Z.min cliphigh (Z.max cliplow (py_round (x / scale) + zero_point)).

(** The clip bounds: the table range, narrowed by [low] and [high] when
    they are given. *)
Definition clip_bounds (qmin qmax : Z) (low high : option Z) : Z * Z :=
  (match low with Some l => Z.max qmin l | None => qmin end,
   match high with Some h => Z.min qmax h | None => qmax end).

(** * The rest of the module: definitions *)

From Stdlib Require Import String.

(** ** Enumerations *)

Inductive QuantizationMode : Type := IntegerOps | QLinearOps.
Inductive QuantizedValueType : Type := Input | Initializer.
Inductive QuantType : Type := QInt8 | QUInt8 | QFLOAT8E4M3FN | QInt16 | QUInt16.
Inductive QuantFormat : Type := QOperator | QDQ.

(** [Enum[name]]: the member called [name]; [None] stands for [KeyError]. *)
Fixpoint enum_getitem {A : Type} (members : list (string * A)) (name : string)
    : option A :=
  match members with
  | [] => None
  | (n, a) :: rest => if String.eqb n name then Some a else enum_getitem rest name
  end.

(** The [except KeyError: raise ValueError()] of every [from_string]. *)
Definition from_string_in {A : Type} (members : list (string * A)) (name : string)
    : result A :=
  match enum_getitem members name with
  | Some a => Ok a
  | None => Raise ValueError
  end.

Definition QuantizationMode_members : list (string * QuantizationMode) :=
  [("IntegerOps", IntegerOps); ("QLinearOps", QLinearOps)]%string.

Definition QuantizedValueType_members : list (string * QuantizedValueType) :=
  [("Input", Input); ("Initializer", Initializer)]%string.

Definition QuantType_members : list (string * QuantType) :=
  [("QInt8", QInt8); ("QUInt8", QUInt8); ("QFLOAT8E4M3FN", QFLOAT8E4M3FN);
   ("QInt16", QInt16); ("QUInt16", QUInt16)]%string.

Definition QuantFormat_members : list (string * QuantFormat) :=
  [("QOperator", QOperator); ("QDQ", QDQ)]%string.

(** [__str__] returns [self.name]. *)
Definition QuantizationMode_str (m : QuantizationMode) : string :=
  match m with IntegerOps => "IntegerOps" | QLinearOps => "QLinearOps" end.

Definition QuantizedValueType_str (v : QuantizedValueType) : string :=
  match v with Input => "Input" | Initializer => "Initializer" end.

Definition QuantType_str (t : QuantType) : string :=
  match t with
  | QInt8 => "QInt8" | QUInt8 => "QUInt8" | QFLOAT8E4M3FN => "QFLOAT8E4M3FN"
  | QInt16 => "QInt16" | QUInt16 => "QUInt16"
  end.

Definition QuantFormat_str (f : QuantFormat) : string :=
  match f with QOperator => "QOperator" | QDQ => "QDQ" end.

Definition QuantizationMode_from_string : string -> result QuantizationMode :=
  from_string_in QuantizationMode_members.
Definition QuantizedValueType_from_string : string -> result QuantizedValueType :=
  from_string_in QuantizedValueType_members.
Definition QuantType_from_string : string -> result QuantType :=
  from_string_in QuantType_members.
Definition QuantFormat_from_string : string -> result QuantFormat :=
  from_string_in QuantFormat_members.



(** ** Range width *)

(** [get_qrange_for_qType(qType, reduce_range, symmetric)]. *)
Definition get_qrange_for_qType
    (qType : TensorProto) (reduce_range symmetric : bool) : result Z :=
  '(qmin, qmax) <- get_qmin_qmax_for_qType qType reduce_range symmetric ;;
  Ok (qmax - qmin).

(** ** Attributes *)

Module AttributeProto.
(** [onnx.AttributeProto], with the fields that [attribute_to_kwarg] reads;
    [T] and [G] are the tensor and graph messages. *)
Record message (T G : Type) : Type := {
  name : string;
  type : Z;
  f : Q;
  i : Z;
  s : string;
  t : T;
  g : G;
  floats : list Q;
  ints : list Z;
  strings : list string;
  tensors : list T;
  graphs : list G
}.
Arguments name {T G} _.
Arguments type {T G} _.
Arguments f {T G} _.
Arguments i {T G} _.
Arguments s {T G} _.
Arguments t {T G} _.
Arguments g {T G} _.
Arguments floats {T G} _.
Arguments ints {T G} _.
Arguments strings {T G} _.
Arguments tensors {T G} _.
Arguments graphs {T G} _.
End AttributeProto.

(** The value that [attribute_to_kwarg] puts under the attribute's name. *)
Inductive attribute_value (T G : Type) : Type :=
| FloatValue (v : Q)
| IntValue (v : Z)
| BytesValue (v : string)
| TensorValue (v : T)
| GraphValue (v : G)
| FloatsValue (v : list Q)
| IntsValue (v : list Z)
| StringsValue (v : list string)
| TensorsValue (v : list T)
| GraphsValue (v : list G).

Arguments FloatValue {T G} v.
Arguments IntValue {T G} v.
Arguments BytesValue {T G} v.
Arguments TensorValue {T G} v.
Arguments GraphValue {T G} v.
Arguments FloatsValue {T G} v.
Arguments IntsValue {T G} v.
Arguments StringsValue {T G} v.
Arguments TensorsValue {T G} v.
Arguments GraphsValue {T G} v.

(** [attribute_to_kwarg(attribute)]; the returned dictionary has one item. *)
Definition attribute_to_kwarg {T G : Type} (attribute : AttributeProto.message T G)
    : result (list (string * attribute_value T G)) :=
  let ty := AttributeProto.type attribute in
  if ty =? 0 then Raise ValueError
  else
    value <-
      (if ty =? 1 then Ok (FloatValue (AttributeProto.f attribute))
       else if ty =? 2 then Ok (IntValue (AttributeProto.i attribute))
       else if ty =? 3 then Ok (BytesValue (AttributeProto.s attribute))
       else if ty =? 4 then Ok (TensorValue (AttributeProto.t attribute))
       else if ty =? 5 then Ok (GraphValue (AttributeProto.g attribute))
       else if ty =? 6 then Ok (FloatsValue (AttributeProto.floats attribute))
       else if ty =? 7 then Ok (IntsValue (AttributeProto.ints attribute))
       else if ty =? 8 then Ok (StringsValue (AttributeProto.strings attribute))
       else if ty =? 9 then Ok (TensorsValue (AttributeProto.tensors attribute))
       else if ty =? 10 then Ok (GraphsValue (AttributeProto.graphs attribute))
       else Raise ValueError) ;;
    Ok [(AttributeProto.name attribute, value)].

(** ** Look-ups *)

(** [find_by_name(item_name, item_list)], for items with a [name]
    attribute. *)
Definition find_by_name {A : Type} (name : A -> string)
    (item_name : string) (item_list : list A) : option A :=
  let items := filter (fun item => String.eqb (name item) item_name) item_list in
  match items with
  | item :: _ => Some item
  | [] => None
  end.

(** [get_elem_index(elem_name, elem_list)]: the loop runs over every index
    and keeps the last one that matches. *)
Definition get_elem_index (elem_name : string) (elem_list : list string) : Z :=
  fold_left
    (fun elem_idx i =>
       if String.eqb (nth i elem_list EmptyString) elem_name then Z.of_nat i
       else elem_idx)
    (seq 0 (List.length elem_list)) (-1).

(** ** Smoothing a histogram *)

(** What [smooth_distribution] returns: the integer [-1] or an array. *)
Inductive smoothed : Type :=
| MinusOne
| Smoothed (hist : list Q).

(** Elementwise [a + b] and [c * a] on arrays. *)
Definition np_add_arrays (a b : list Q) : list Q :=
  map (fun xy => fst xy + snd xy)%Q (combine a b).
Definition np_scale (c : Q) (a : list Q) : list Q := map (Qmult c) a.

(** [smooth_distribution(p, eps)]. *)
Definition smooth_distribution (p : list Q) (eps : Q) : result smoothed :=
  let is_zeros := map (fun x => if Qeq_bool x 0 then 1 else 0)%Q p in
  let is_nonzeros := map (fun x => if Qeq_bool x 0 then 0 else 1)%Q p in
  let n_zeros := Qsum is_zeros in
  let n_nonzeros := (inject_Z (Z.of_nat (List.length p)) - n_zeros)%Q in
  if Qeq_bool n_nonzeros 0 then Ok MinusOne
  else
    let eps1 := (eps * n_zeros / n_nonzeros)%Q in
    if negb (Qltb eps1 1) then Raise AssertionError
    else
      let hist := p in
      let hist :=
        np_add_arrays hist
          (np_add_arrays (np_scale eps is_zeros) (np_scale (- eps1) is_nonzeros)) in
      if negb (Nat.eqb (List.length (filter (fun h => Qle_bool h 0) hist)) 0)
      then Raise AssertionError
      else Ok (Smoothed hist).

(** ** Model metadata *)

(** [ModelProto], reduced to its repeated field [metadata_props]; an
    entry is the pair of its [key] and [value]. *)
Record ModelProto : Type := { metadata_props : list (string * string) }.

(** A Python [dict] from string to string: items in insertion order, keys
    distinct. *)
Definition py_dict : Type := list (string * string).

(** [d.update({k: v})]: an existing key keeps its place and takes the new
    value, a new key goes to the end. *)
Fixpoint dict_update (d : py_dict) (k v : string) : py_dict :=
  match d with
  | [] => [(k, v)]
  | (k', v') :: rest =>
      if String.eqb k' k then (k', v) :: rest
      else (k', v') :: dict_update rest k v
  end.

(** [d.get(k)]. *)
Fixpoint dict_get (d : py_dict) (k : string) : option string :=
  match d with
  | [] => None
  | (k', v') :: rest => if String.eqb k' k then Some v' else dict_get rest k
  end.

(** [onnx.helper.set_model_props(model, dict_value)]: the field is cleared
    and refilled with the items of the dictionary, in order. *)
Definition set_model_props (model : ModelProto) (dict_value : py_dict) : ModelProto :=
  {| metadata_props := dict_value |}.

(** [add_pre_process_metadata(model)]; the model is updated in place, the
    embedding returns the updated model. *)
Definition add_pre_process_metadata (model : ModelProto) : ModelProto :=
  let props : py_dict := [("onnx.quant.pre_process", "onnxruntime.quant")]%string in
  let props :=
    if nonempty (metadata_props model) then
      fold_left (fun d prop => dict_update d (fst prop) (snd prop))
        (metadata_props model) props
    else props in
  set_model_props model props.

(** [model_has_pre_process_metadata(model)]. *)
Definition model_has_pre_process_metadata (model : ModelProto) : bool :=
  if nonempty (metadata_props model) then
    existsb
      (fun prop =>
         String.eqb (fst prop) "onnx.quant.pre_process"
         && String.eqb (snd prop) "onnxruntime.quant")
      (metadata_props model)
  else false.

(** [add_infer_metadata(model)]. *)
Definition add_infer_metadata (model : ModelProto) : ModelProto :=
  let props : py_dict := [("onnx.infer", "onnxruntime.quant")]%string in
  let props :=
    if nonempty (metadata_props model) then
      fold_left (fun d p => dict_update d (fst p) (snd p))
        (metadata_props model) props
    else props in
  set_model_props model props.

(** [model_has_infer_metadata(model)]. *)
Definition model_has_infer_metadata (model : ModelProto) : bool :=
  if nonempty (metadata_props model) then
    existsb
      (fun p =>
         String.eqb (fst p) "onnx.infer"
         && String.eqb (snd p) "onnxruntime.quant")
      (metadata_props model)
  else false.

(** ** Tensor names *)

Definition QUANT_INPUT_SUFFIX : string := "_QuantizeLinear_Input".
Definition DEQUANT_OUTPUT_SUFFIX : string := "_DequantizeLinear_Output".

Definition add_quant_suffix (tensor_name : string) : string :=
  (tensor_name ++ "_QuantizeLinear")%string.
Definition add_quant_input_suffix (tensor_name : string) : string :=
  (tensor_name ++ QUANT_INPUT_SUFFIX)%string.
Definition add_quant_output_suffix (tensor_name : string) : string :=
  (tensor_name ++ "_QuantizeLinear_Output")%string.
Definition add_dequant_suffix (tensor_name : string) : string :=
  (tensor_name ++ "_DequantizeLinear")%string.
Definition add_dequant_input_suffix (tensor_name : string) : string :=
  (tensor_name ++ "_DequantizeLinear_Input")%string.
Definition add_dequant_output_suffix (tensor_name : string) : string :=
  (tensor_name ++ DEQUANT_OUTPUT_SUFFIX)%string.

(** ** Definitions used in the statements, continued *)


(** The value that a dictionary built by successive updates holds for
    [k]: that of the last entry with this key. *)
Definition last_value (k : string) (props : list (string * string)) : option string :=
  fold_left
    (fun acc p => if String.eqb (fst p) k then Some (snd p) else acc) props None.

(** The loop of [get_elem_index], as a recursion on the list. *)
Fixpoint last_index_from (elem_name : string) (rest : list string)
    (start : nat) (acc : Z) : Z :=
  match rest with
  | [] => acc
  | x :: r =>
      last_index_from elem_name r (S start)
        (if String.eqb x elem_name then Z.of_nat start else acc)
  end.

(** The number of zero entries of a histogram, and the amount that
    [smooth_distribution] takes off each non-zero entry. *)
Definition count_zeros (p : list Q) : nat :=
  List.length (filter (fun x => Qeq_bool x 0) p).

Definition smoothing_loss (p : list Q) (eps : Q) : Q :=
  (eps * inject_Z (Z.of_nat (count_zeros p))
   / inject_Z (Z.of_nat (List.length p - count_zeros p)))%Q.

(** The six functions that derive a tensor name. *)
Definition suffix_functions : list (string -> string) :=
  [add_quant_suffix; add_quant_input_suffix; add_quant_output_suffix;
   add_dequant_suffix; add_dequant_input_suffix; add_dequant_output_suffix].

(** The metadata functions, with the tag as a parameter. *)
Definition tagged (k v : string) (model : ModelProto) : ModelProto :=
  {| metadata_props :=
       fold_left (fun d p => dict_update d (fst p) (snd p))
         (metadata_props model) [(k, v)] |}.

Definition has_tag (k v : string) (model : ModelProto) : bool :=
  existsb (fun p => String.eqb (fst p) k && String.eqb (snd p) v)
    (metadata_props model).

(** * Properties *)

(** ** Rational helpers *)

Lemma Qltb_lt (x y : Q) : Qltb x y = true <-> (x < y)%Q.
Proof.
  unfold Qltb. rewrite negb_true_iff. split; intro H.
  - apply Qnot_le_lt. intro L. apply Qle_bool_iff in L. congruence.
  - destruct (Qle_bool y x) eqn:E; [|reflexivity].
    apply Qle_bool_iff in E. exfalso. exact (Qlt_not_le _ _ H E).
Qed.

Lemma Qltb_ge (x y : Q) : Qltb x y = false <-> (y <= x)%Q.
Proof.
  unfold Qltb. rewrite negb_false_iff. apply Qle_bool_iff.
Qed.

Lemma py_min2_spec (a b : Q) :
  (py_min2 a b <= a)%Q /\ (py_min2 a b <= b)%Q /\ (py_min2 a b = a \/ py_min2 a b = b).
Proof.
  unfold py_min2. destruct (Qltb b a) eqn:E.
  - apply Qltb_lt in E. repeat split; try lra. now right.
  - apply Qltb_ge in E. repeat split; try lra. now left.
Qed.

Lemma py_max2_spec (a b : Q) :
  (a <= py_max2 a b)%Q /\ (b <= py_max2 a b)%Q /\ (py_max2 a b = a \/ py_max2 a b = b).
Proof.
  unfold py_max2. destruct (Qltb a b) eqn:E.
  - apply Qltb_lt in E. repeat split; try lra. now right.
  - apply Qltb_ge in E. repeat split; try lra. now left.
Qed.

Lemma inject_Z_sub (a b : Z) : inject_Z (a - b) = (inject_Z a - inject_Z b)%Q.
Proof.
  unfold Z.sub, Qminus. now rewrite inject_Z_plus, inject_Z_opp.
Qed.

Lemma inject_Z_le (a b : Z) : a <= b <-> (inject_Z a <= inject_Z b)%Q.
Proof. rewrite Zle_Qle. reflexivity. Qed.

Lemma inject_Z_lt (a b : Z) : a < b <-> (inject_Z a < inject_Z b)%Q.
Proof. rewrite Zlt_Qlt. reflexivity. Qed.

(** Rounding never leaves an interval with integer end points. *)
Lemma py_round_bounds (x : Q) (a b : Z) :
  (inject_Z a <= x)%Q -> (x <= inject_Z b)%Q -> a <= py_round x <= b.
Proof.
  intros Ha Hb. unfold py_round.
  assert (Hfa : a <= Qfloor x)
    by (rewrite <- (Qfloor_Z a); now apply Qfloor_resp_le).
  assert (Hfb : Qfloor x <= b)
    by (rewrite <- (Qfloor_Z b); now apply Qfloor_resp_le).
  assert (Hedge : Qfloor x = b -> (x - inject_Z (Qfloor x) <= 0)%Q)
    by (intros ->; lra).
  destruct (Qcompare_spec (x - inject_Z (Qfloor x)) (1 # 2)) as [E | L | G].
  - destruct (Z.even (Qfloor x)); [lia |].
    destruct (Z.eq_dec (Qfloor x) b) as [Eb | Nb]; [| lia].
    specialize (Hedge Eb). lra.
  - lia.
  - destruct (Z.eq_dec (Qfloor x) b) as [Eb | Nb]; [| lia].
    specialize (Hedge Eb). lra.
Qed.


Example py_round_ties :
  map py_round [1 # 2; 3 # 2; 5 # 2; - (1 # 2); - (5 # 2); 7 # 3]%Q
  = [0; 2; 2; 0; -2; 2].
Proof. reflexivity. Qed.

Lemma float32_tiny_pos : (0 < float32_tiny)%Q.
Proof. reflexivity. Qed.

(** ** The range table *)

Lemma get_qmin_qmax_integer (qType : TensorProto) (reduce_range symmetric : bool) :
  is_integer_kind qType = true ->
  get_qmin_qmax_for_qType qType reduce_range symmetric
  = Ok (spec_table_range qType reduce_range symmetric).
Proof.
  destruct qType; try discriminate; intros _;
    destruct reduce_range, symmetric; reflexivity.
Qed.

Lemma spec_table_range_zero (qType : TensorProto) (reduce_range symmetric : bool) :
  fst (spec_table_range qType reduce_range symmetric) <= 0
  <= snd (spec_table_range qType reduce_range symmetric).
Proof.
  destruct qType, reduce_range, symmetric; simpl; lia.
Qed.

Lemma spec_table_range_width (qType : TensorProto) (reduce_range symmetric : bool) :
  is_integer_kind qType = true ->
  fst (spec_table_range qType reduce_range symmetric)
  < snd (spec_table_range qType reduce_range symmetric).
Proof.
  destruct qType; try discriminate; intros _;
    destruct reduce_range, symmetric; simpl; lia.
Qed.

(** C3: for the four integer kinds, [get_qmin_qmax_for_qType] returns the
    literal table entry, the reduced range taking precedence over the
    symmetric one and the full range being used otherwise; every returned
    pair has [qmin <= 0 <= qmax]. *)
Theorem get_qmin_qmax_for_qType_table
    (qType : TensorProto) (reduce_range symmetric : bool) :
  is_integer_kind qType = true ->
  exists qmin qmax,
    get_qmin_qmax_for_qType qType reduce_range symmetric = Ok (qmin, qmax)
    /\ (qmin, qmax) = spec_table_range qType reduce_range symmetric
    /\ (reduce_range = true ->
        ONNX_INT_TYPE_REDUCED_RANGE qType = Some (qmin, qmax))
    /\ (reduce_range = false -> symmetric = true ->
        (qType = INT8 \/ qType = INT16) ->
        ONNX_INT_TYPE_SYMMETRIC_RANGE qType = Some (qmin, qmax))
    /\ (reduce_range = false ->
        (symmetric = false \/ qType = UINT8 \/ qType = UINT16) ->
        ONNX_INT_TYPE_RANGE qType = Some (qmin, qmax))
    /\ qmin <= 0 <= qmax.
Proof.
  intros Hk.
  destruct (spec_table_range qType reduce_range symmetric) as [qmin qmax] eqn:E.
  exists qmin, qmax.
  pose proof (get_qmin_qmax_integer qType reduce_range symmetric Hk) as Hg.
  pose proof (spec_table_range_zero qType reduce_range symmetric) as Hz.
  rewrite E in Hg, Hz. simpl in Hz.
  split; [exact Hg |]. split; [reflexivity |].
  destruct qType; try discriminate Hk;
    destruct reduce_range, symmetric; simpl in E; inversion E; subst;
    repeat split; try reflexivity; try lia; try discriminate;
    intros; repeat match goal with
            | H : _ \/ _ |- _ => destruct H
            end; try discriminate; try reflexivity.
Qed.

Lemma get_qmin_qmax_for_qType_table_witness :
  exists qmin qmax,
    get_qmin_qmax_for_qType INT8 false true = Ok (qmin, qmax)
    /\ (qmin, qmax) = (-127, 127).
Proof.
  destruct (get_qmin_qmax_for_qType_table INT8 false true eq_refl)
    as (qmin & qmax & Hg & Ht & _).
  exists qmin, qmax. split; [exact Hg | exact Ht].
Defined.

(** ** The scale and zero-point solver *)

Lemma adjusted_range_sign (rmin rmax : Q) (symmetric : bool) :
  (fst (adjusted_range rmin rmax symmetric) <= 0)%Q
  /\ (0 <= snd (adjusted_range rmin rmax symmetric))%Q.
Proof.
  unfold adjusted_range.
  destruct (py_min2_spec rmin 0) as (_ & Hlo & _).
  destruct (py_max2_spec rmax 0) as (_ & Hhi & _).
  destruct symmetric; simpl; [| split; assumption].
  destruct (py_max2_spec (Qabs (py_min2 rmin 0)) (Qabs (py_max2 rmax 0)))
    as (Ha & _ & _).
  pose proof (Qabs_nonneg (py_min2 rmin 0)). split; lra.
Qed.

(** With a range already around zero and no symmetrisation, nothing is
    adjusted. *)
Lemma adjusted_range_id (rmin rmax : Q) :
  (rmin <= 0)%Q -> (0 <= rmax)%Q ->
  (fst (adjusted_range rmin rmax false) == rmin)%Q
  /\ (snd (adjusted_range rmin rmax false) == rmax)%Q.
Proof.
  intros Hlo Hhi. unfold adjusted_range, py_min2, py_max2. simpl.
  destruct (Qltb 0 rmin) eqn:E1; destruct (Qltb rmax 0) eqn:E2; simpl;
    try apply Qltb_lt in E1; try apply Qltb_lt in E2; split; lra.
Qed.

Lemma precondition_passes (qmin qmax : Z) :
  qmin <= 0 <= qmax -> (qmin >? 0) || (qmax <? 0) = false.
Proof.
  intros [H1 H2]. apply orb_false_iff. rewrite Z.gtb_ltb, !Z.ltb_ge. lia.
Qed.

Lemma precondition_fails (qmin qmax : Z) :
  ~ (qmin <= 0 <= qmax) -> (qmin >? 0) || (qmax <? 0) = true.
Proof.
  intros H. apply orb_true_iff. rewrite Z.gtb_ltb, !Z.ltb_lt. lia.
Qed.

Lemma width_nonzero (qmin qmax : Z) :
  qmin < qmax -> Qeq_bool (inject_Z (qmax - qmin)) 0 = false.
Proof.
  intros H. destruct (Qeq_bool (inject_Z (qmax - qmin)) 0) eqn:E; [| reflexivity].
  apply Qeq_bool_iff in E. change 0%Q with (inject_Z 0) in E.
  apply (proj1 (inject_Z_injective _ _)) in E. exfalso. lia.
Qed.

Lemma width_pos (qmin qmax : Z) :
  qmin < qmax -> (0 < inject_Z (qmax - qmin))%Q.
Proof.
  intros H. change 0%Q with (inject_Z 0).
  apply (proj1 (inject_Z_lt 0 (qmax - qmin))). lia.
Qed.

(** The function, once its two guards are passed. *)
Lemma compute_scale_zp_eq (rmin rmax : Q) (qmin qmax : Z) (symmetric : bool) :
  qmin <= 0 <= qmax -> qmin < qmax ->
  compute_scale_zp rmin rmax qmin qmax symmetric
  = let s := computed_scale rmin rmax qmin qmax symmetric in
    if Qltb s float32_tiny then Ok (0, 1%Q)
    else Ok (py_round (inject_Z qmin
                       - fst (adjusted_range rmin rmax symmetric) / s)%Q, s).
Proof.
  intros Hq Hw. unfold compute_scale_zp, computed_scale, adjusted_range.
  rewrite (precondition_passes _ _ Hq).
  destruct symmetric; simpl; unfold py_truediv;
    rewrite (width_nonzero _ _ Hw); reflexivity.
Qed.

Lemma computed_scale_nonneg (rmin rmax : Q) (qmin qmax : Z) (symmetric : bool) :
  qmin < qmax -> (0 <= computed_scale rmin rmax qmin qmax symmetric)%Q.
Proof.
  intros Hw. unfold computed_scale.
  destruct (adjusted_range_sign rmin rmax symmetric) as [Hlo Hhi].
  destruct (adjusted_range rmin rmax symmetric) as [lo hi]. simpl in *.
  apply Qle_shift_div_l.
  - apply width_pos, Hw.
  - lra.
Qed.

(** The zero point of a range around zero lies in the target range. *)
Lemma zero_point_bounds (lo hi : Q) (qmin qmax : Z) :
  (lo <= 0)%Q -> (0 <= hi)%Q -> qmin < qmax ->
  (0 < (hi - lo) / inject_Z (qmax - qmin))%Q ->
  qmin <= py_round (inject_Z qmin - lo / ((hi - lo) / inject_Z (qmax - qmin)))%Q
  <= qmax.
Proof.
  intros Hlo Hhi Hw Hs.
  set (s := ((hi - lo) / inject_Z (qmax - qmin))%Q) in *.
  assert (HW : (0 < inject_Z (qmax - qmin))%Q)
    by (apply width_pos, Hw).
  assert (Hprod : (inject_Z (qmax - qmin) * s == hi - lo)%Q)
    by (unfold s; field; lra).
  assert (H1 : (lo / s <= 0)%Q)
    by (apply Qle_shift_div_r; [exact Hs | lra]).
  assert (H2 : (- lo / s <= inject_Z (qmax - qmin))%Q)
    by (apply Qle_shift_div_r; [exact Hs | lra]).
  assert (H3 : (- lo / s == - (lo / s))%Q) by (field; lra).
  rewrite inject_Z_sub in H2.
  apply py_round_bounds; lra.
Qed.

(** Whenever the target range is valid, the solver returns a positive scale
    and a zero point inside the target range. *)
Lemma compute_scale_zp_sound
    (rmin rmax : Q) (qmin qmax : Z) (symmetric : bool) :
  qmin <= 0 <= qmax -> qmin < qmax ->
  exists zero_point scale,
    compute_scale_zp rmin rmax qmin qmax symmetric = Ok (zero_point, scale)
    /\ (0 < scale)%Q
    /\ qmin <= zero_point <= qmax.
Proof.
  intros Hq Hw. rewrite (compute_scale_zp_eq _ _ _ _ _ Hq Hw). cbv zeta.
  destruct (Qltb _ float32_tiny) eqn:E.
  - exists 0, 1%Q. split; [reflexivity |]. split; [reflexivity | lia].
  - apply Qltb_ge in E. pose proof float32_tiny_pos as Ht.
    eexists _, _. split; [reflexivity |]. split; [lra |].
    revert E. unfold computed_scale.
    destruct (adjusted_range_sign rmin rmax symmetric) as [Hlo Hhi].
    destruct (adjusted_range rmin rmax symmetric) as [lo hi]. simpl in *.
    intros E. apply zero_point_bounds; try assumption. lra.
Qed.

(** C5: for a real range around zero and a valid target range, the
    asymmetric solver returns a zero point inside [[qmin, qmax]] and a
    non-negative scale: the width ratio, or 1.0 with zero point 0 in the
    degenerate case. *)
Theorem compute_scale_zp_asymmetric_bounds
    (rmin rmax : Q) (qmin qmax : Z) :
  (rmin <= 0)%Q -> (0 <= rmax)%Q ->
  qmin <= 0 <= qmax -> qmin < qmax ->
  exists zero_point scale,
    compute_scale_zp rmin rmax qmin qmax false = Ok (zero_point, scale)
    /\ qmin <= zero_point <= qmax
    /\ (0 <= scale)%Q
    /\ ((zero_point = 0 /\ scale = 1%Q)
        \/ (scale == (rmax - rmin) / inject_Z (qmax - qmin))%Q).
Proof.
  intros Hlo Hhi Hq Hw.
  destruct (compute_scale_zp_sound rmin rmax qmin qmax false Hq Hw)
    as (zp & s & Hr & Hs & Hz).
  exists zp, s. split; [exact Hr |]. split; [exact Hz |]. split; [lra |].
  rewrite (compute_scale_zp_eq _ _ _ _ _ Hq Hw) in Hr. cbv zeta in Hr.
  destruct (Qltb _ float32_tiny); inversion Hr; subst; [now left | right].
  unfold computed_scale.
  destruct (adjusted_range_id rmin rmax Hlo Hhi) as [H1 H2].
  destruct (adjusted_range rmin rmax false) as [lo hi]. simpl in H1, H2.
  now rewrite H1, H2.
Qed.

Lemma compute_scale_zp_asymmetric_bounds_witness :
  exists zero_point scale,
    compute_scale_zp (- (1)) 3 0 255 false = Ok (zero_point, scale)
    /\ 0 <= zero_point <= 255
    /\ (0 <= scale)%Q
    /\ ((zero_point = 0 /\ scale = 1%Q)
        \/ (scale == (3 - - (1)) / inject_Z (255 - 0))%Q).
Proof.
  apply (compute_scale_zp_asymmetric_bounds (- (1)) 3 0 255); try lra; lia.
Defined.

(** C6: when the computed scale is below the smallest positive normal
    binary32 number, the solver returns zero point 0 and scale 1.0 and
    raises nothing; in particular on [(0, 0, 0, 255)]. *)
Theorem compute_scale_zp_degenerate_scale :
  (forall (rmin rmax : Q) (qmin qmax : Z) (symmetric : bool),
      qmin <= 0 <= qmax -> qmin < qmax ->
      (computed_scale rmin rmax qmin qmax symmetric < float32_tiny)%Q ->
      compute_scale_zp rmin rmax qmin qmax symmetric = Ok (0, 1%Q))
  /\ compute_scale_zp 0 0 0 255 false = Ok (0, 1%Q).
Proof.
  split; [| reflexivity].
  intros rmin rmax qmin qmax symmetric Hq Hw Hs.
  rewrite (compute_scale_zp_eq _ _ _ _ _ Hq Hw). cbv zeta.
  apply Qltb_lt in Hs. now rewrite Hs.
Qed.

Lemma compute_scale_zp_degenerate_scale_witness :
  (computed_scale 0 (1 # 2 ^ 200) (-128) 127 true < float32_tiny)%Q
  /\ compute_scale_zp 0 (1 # 2 ^ 200) (-128) 127 true = Ok (0, 1%Q).
Proof.
  assert (H : (computed_scale 0 (1 # 2 ^ 200) (-128) 127 true < float32_tiny)%Q)
    by (vm_compute; reflexivity).
  split; [exact H |].
  apply (proj1 compute_scale_zp_degenerate_scale); [lia | lia | exact H].
Defined.

(** C10: with [qmin <= 0 <= qmax] and [qmin < qmax] the solver returns for
    every real [rmin] and [rmax], ordered or not and of either sign: the
    extension puts zero into the range first.  The only error it can raise
    when [qmin < qmax] is the [ValueError] of the range check. *)
Theorem compute_scale_zp_total
    (rmin rmax : Q) (qmin qmax : Z) (symmetric : bool) :
  qmin < qmax ->
  (py_min2 rmin 0 <= 0)%Q /\ (0 <= py_max2 rmax 0)%Q
  /\ (qmin <= 0 <= qmax ->
      exists zero_point scale,
        compute_scale_zp rmin rmax qmin qmax symmetric = Ok (zero_point, scale))
  /\ (forall e,
        compute_scale_zp rmin rmax qmin qmax symmetric = Raise e ->
        e = ValueError /\ ~ (qmin <= 0 <= qmax)).
Proof.
  intros Hw.
  destruct (py_min2_spec rmin 0) as (_ & Hlo & _).
  destruct (py_max2_spec rmax 0) as (_ & Hhi & _).
  split; [exact Hlo |]. split; [exact Hhi |]. split.
  - intros Hq.
    destruct (compute_scale_zp_sound rmin rmax qmin qmax symmetric Hq Hw)
      as (zp & s & Hr & _).
    now exists zp, s.
  - intros e He.
    destruct (Z_le_dec qmin 0) as [H1 | H1];
      [destruct (Z_le_dec 0 qmax) as [H2 | H2] |].
    + destruct (compute_scale_zp_sound rmin rmax qmin qmax symmetric
                  (conj H1 H2) Hw) as (zp & s & Hr & _).
      congruence.
    + unfold compute_scale_zp in He.
      rewrite precondition_fails in He by lia. inversion He. split; [reflexivity | lia].
    + unfold compute_scale_zp in He.
      rewrite precondition_fails in He by lia. inversion He. split; [reflexivity | lia].
Qed.

Lemma compute_scale_zp_total_witness :
  exists zero_point scale,
    compute_scale_zp 5 2 (-128) 127 false = Ok (zero_point, scale).
Proof.
  destruct (compute_scale_zp_total 5 2 (-128) 127 false) as (_ & _ & H & _);
    [lia |].
  apply H. lia.
Defined.

(** ** Results and extrema *)

Lemma bind_ok {A B : Type} (m : result A) (k : A -> result B) (b : B) :
  bind m k = Ok b -> exists a, m = Ok a /\ k a = Ok b.
Proof.
  destruct m as [a | e]; simpl; intros H; [| discriminate].
  exists a. split; [reflexivity | exact H].
Qed.

(** The running extremum of a list is one of its items and is at least as
    good as every item, for an order that [better] decides. *)
Lemma extremum_spec {A : Type} (better : A -> A -> bool) (le : A -> A -> Prop) :
  (forall a, le a a) ->
  (forall a b c, le a b -> le b c -> le a c) ->
  (forall y m, better y m = true -> le y m) ->
  (forall y m, better y m = false -> le m y) ->
  forall l r, extremum better l = Ok r ->
    In r l /\ forall y, In y l -> le r y.
Proof.
  intros Hrefl Htrans Hyes Hno l r.
  destruct l as [| x t]; simpl; [discriminate |].
  intros H. inversion H as [Hr]. clear H Hr.
  revert x. induction t as [| y t IH]; intros x; simpl.
  - split; [now left |]. intros z [<- | []]. apply Hrefl.
  - destruct (IH (if better y x then y else x)) as [Hin Hle].
    assert (Hx : le (if better y x then y else x) x)
      by (destruct (better y x) eqn:E; [now apply Hyes | apply Hrefl]).
    assert (Hy : le (if better y x then y else x) y)
      by (destruct (better y x) eqn:E; [apply Hrefl | now apply Hno]).
    split.
    + destruct Hin as [Hin | Hin]; [| now right; right].
      rewrite <- Hin. destruct (better y x); [right; now left | now left].
    + intros z [<- | [<- | Hz]].
      * eapply Htrans; [| exact Hx]. apply Hle. now left.
      * eapply Htrans; [| exact Hy]. apply Hle. now left.
      * apply Hle. now right.
Qed.

Lemma py_min_spec (l : list Q) (r : Q) :
  py_min l = Ok r -> In r l /\ forall y, In y l -> (r <= y)%Q.
Proof.
  apply (extremum_spec Qltb Qle).
  - intros a. lra.
  - intros a b c. lra.
  - intros y m E. apply Qltb_lt in E. lra.
  - intros y m E. now apply Qltb_ge in E.
Qed.

Lemma py_max_spec (l : list Q) (r : Q) :
  py_max l = Ok r -> In r l /\ forall y, In y l -> (y <= r)%Q.
Proof.
  apply (extremum_spec (fun y m => Qltb m y) (fun a b => (b <= a)%Q)).
  - intros a. lra.
  - intros a b c. lra.
  - intros y m E. apply Qltb_lt in E. lra.
  - intros y m E. now apply Qltb_ge in E.
Qed.

Lemma extremum_nonempty {A : Type} (better : A -> A -> bool) (l : list A) :
  l <> [] -> exists r, extremum better l = Ok r.
Proof.
  destruct l as [| x t]; [congruence |]. intros _. simpl. eauto.
Qed.

Lemma existsb_is_nan_code (codes : list Z) :
  existsb is_nan_code codes = true
  <-> exists b, In b codes /\ Z.land b 127 = 127.
Proof.
  rewrite existsb_exists. unfold is_nan_code.
  split; intros (b & Hin & Hb); exists b; split; try assumption.
  - now apply Z.eqb_eq.
  - now apply Z.eqb_eq.
Qed.

Section Orchestrator.
Context {RT : Runtime}.

Lemma data_range_ok (data : list Q) : exists rmin rmax, data_range data = Ok (rmin, rmax).
Proof.
  unfold data_range. destruct data as [| x t]; simpl; eauto.
Qed.

Lemma data_range_nonempty (data : list Q) (rmin rmax : Q) :
  data <> [] -> data_range data = Ok (rmin, rmax) ->
  py_min data = Ok rmin /\ py_max data = Ok rmax.
Proof.
  unfold data_range. destruct data as [| x t]; [congruence |].
  intros _. simpl. intros H. inversion H. split; reflexivity.
Qed.

(** The narrow-float path, step by step. *)
Lemma quantize_data_float8 (data : list Q) (symmetric : bool) :
  quantize_data data FLOAT8E4M3FN symmetric false
  = '(rmin, rmax) <- data_range data ;;
    if existsb is_nan_code (float8_codes data) then
      dmin <- py_min data ;; dmax <- py_max data ;;
      cmin <- codes_min (float8_codes data) ;;
      cmax <- codes_max (float8_codes data) ;;
      Raise (RuntimeError (QuantizedValueIsNaN dmin dmax cmin cmax))
    else
      Ok (rmin, rmax, 0, float8_scale data,
          {| dtype := float8e4m3fn; items := float8_codes data |}).
Proof. reflexivity. Qed.

(** The integer path, step by step. *)
Lemma quantize_data_integer
    (data : list Q) (qType : TensorProto) (symmetric reduce_range : bool) :
  is_integer_kind qType = true ->
  quantize_data data qType symmetric reduce_range
  = '(rmin, rmax) <- data_range data ;;
    '(zero_point, scale) <-
      (if nonempty data then
         '(qmin, qmax) <- get_qmin_qmax_for_qType qType reduce_range symmetric ;;
         '(zero_point, scale) <- compute_scale_zp rmin rmax qmin qmax symmetric ;;
         Ok (zero_point, Finite scale)
       else Ok (0, Finite 1)) ;;
    quantized_data <- quantize_nparray qType data scale zero_point None None ;;
    Ok (rmin, rmax, zero_point, scale, quantized_data).
Proof.
  intros Hk. destruct qType; try discriminate Hk; reflexivity.
Qed.


(** The first two components of a successful call. *)
Lemma quantize_data_reports_range
    (data : list Q) (qType : TensorProto) (symmetric reduce_range : bool)
    (rmin rmax : Q) (zero_point : Z) (scale : npfloat) (q : ndarray) :
  quantize_data data qType symmetric reduce_range
  = Ok (rmin, rmax, zero_point, scale, q) ->
  data_range data = Ok (rmin, rmax).
Proof.
  unfold quantize_data. fold (data_range data). intros H.
  apply bind_ok in H. destruct H as ([lo hi] & Hr & H). rewrite Hr.
  cbv beta zeta in H.
  destruct (TensorProto_eqb qType FLOAT8E4M3FN).
  - destruct reduce_range; [discriminate |].
    apply bind_ok in H. destruct H as ([zp s] & _ & H). cbv beta zeta in H.
    apply bind_ok in H. destruct H as (qd & _ & H).
    destruct (existsb is_nan_code (items qd)).
    + destruct (py_min data); [| discriminate].
      destruct (py_max data); [| discriminate].
      destruct (codes_min (items qd)); [| discriminate].
      destruct (codes_max (items qd)); discriminate.
    + now inversion H.
  - destruct (is_integer_kind qType); [| discriminate].
    apply bind_ok in H. destruct H as ([zp s] & _ & H). cbv beta zeta in H.
    apply bind_ok in H. destruct H as (qd & _ & H).
    now inversion H.
Qed.

(** C2: for non-empty data, the first two components of a successful
    call are the minimum and the maximum of the data, whatever the kind
    and the flags. *)
Theorem quantize_data_rmin_rmax
    (data : list Q) (qType : TensorProto) (symmetric reduce_range : bool)
    (rmin rmax : Q) (zero_point : Z) (scale : npfloat) (q : ndarray) :
  data <> [] ->
  quantize_data data qType symmetric reduce_range
  = Ok (rmin, rmax, zero_point, scale, q) ->
  (In rmin data /\ forall x, In x data -> (rmin <= x)%Q)
  /\ (In rmax data /\ forall x, In x data -> (x <= rmax)%Q).
Proof.
  intros Hne H. apply quantize_data_reports_range in H.
  destruct (data_range_nonempty data rmin rmax Hne H) as [Hmin Hmax].
  split; [now apply py_min_spec | now apply py_max_spec].
Qed.


(** C8: on the narrow-float path with [reduce_range = False], the call
    raises the NaN [RuntimeError], whose message carries the range of the
    data and of the quantized codes, exactly when some code has its low
    seven bits equal to 127; otherwise it returns the quantized buffer. *)
Theorem quantize_data_float8_nan_guard (data : list Q) (symmetric : bool) :
  let r := quantize_data data FLOAT8E4M3FN symmetric false in
  let has_nan := exists b, In b (float8_codes data) /\ Z.land b 127 = 127 in
  (has_nan <->
   exists dmin dmax cmin cmax,
     r = Raise (RuntimeError (QuantizedValueIsNaN dmin dmax cmin cmax)))
  /\ (has_nan ->
      exists dmin dmax cmin cmax,
        py_min data = Ok dmin /\ py_max data = Ok dmax
        /\ codes_min (float8_codes data) = Ok cmin
        /\ codes_max (float8_codes data) = Ok cmax
        /\ r = Raise (RuntimeError (QuantizedValueIsNaN dmin dmax cmin cmax)))
  /\ (~ has_nan ->
      exists rmin rmax,
        data_range data = Ok (rmin, rmax)
        /\ r = Ok (rmin, rmax, 0, float8_scale data,
                   {| dtype := float8e4m3fn; items := float8_codes data |})).
Proof.
  cbv zeta. rewrite quantize_data_float8.
  destruct (data_range_ok data) as (rmin & rmax & Hr). rewrite Hr. simpl.
  destruct (existsb is_nan_code (float8_codes data)) eqn:E.
  - apply existsb_is_nan_code in E.
    assert (Hraise :
      exists dmin dmax cmin cmax,
        py_min data = Ok dmin /\ py_max data = Ok dmax
        /\ codes_min (float8_codes data) = Ok cmin
        /\ codes_max (float8_codes data) = Ok cmax).
    { destruct E as (b & Hin & _).
      assert (Hc : float8_codes data <> []) by (intros Hc; now rewrite Hc in Hin).
      assert (Hd : data <> [])
        by (intros Hd; apply Hc; unfold float8_codes; now rewrite Hd).
      destruct (extremum_nonempty Qltb data Hd) as (dmin & Hdmin).
      destruct (extremum_nonempty (fun y m => Qltb m y) data Hd) as (dmax & Hdmax).
      destruct (extremum_nonempty Z.ltb _ Hc) as (cmin & Hcmin).
      destruct (extremum_nonempty (fun y m => Z.ltb m y) _ Hc) as (cmax & Hcmax).
      exists dmin, dmax, cmin, cmax. repeat split; assumption. }
    destruct Hraise as (dmin & dmax & cmin & cmax & H1 & H2 & H3 & H4).
    rewrite H1, H2, H3, H4. simpl.
    split; [| split].
    + split; [| intros _; exact E]. intros _. now exists dmin, dmax, cmin, cmax.
    + intros _. exists dmin, dmax, cmin, cmax. repeat split.
    + intros Hn. contradiction.
  - assert (Hn : ~ exists b, In b (float8_codes data) /\ Z.land b 127 = 127).
    { intros H. apply existsb_is_nan_code in H. congruence. }
    split; [| split].
    + split; [intros H; contradiction |].
      intros (dmin & dmax & cmin & cmax & H). discriminate H.
    + intros H. contradiction.
    + intros _. exists rmin, rmax. split; reflexivity.
Qed.


(** On the integer path the defaults survive an empty buffer. *)
Lemma quantize_data_empty_integer
    (qType : TensorProto) (symmetric reduce_range : bool) :
  is_integer_kind qType = true ->
  exists dt,
    ONNX_TYPE_TO_NP_TYPE qType = Some dt
    /\ quantize_data [] qType symmetric reduce_range
       = Ok (0%Q, 0%Q, 0, Finite 1, {| dtype := dt; items := [] |}).
Proof.
  destruct qType; try discriminate; intros _; eexists; split; reflexivity.
Qed.



(** ** The integer transform *)

Lemma py_max2_inject (q : Q) (a lo : Z) :
  (q == inject_Z a)%Q ->
  (py_max2 q (inject_Z lo) == inject_Z (Z.max lo a))%Q.
Proof.
  intros H. unfold py_max2. destruct (Qltb q (inject_Z lo)) eqn:E.
  - apply Qltb_lt in E. rewrite H in E.
    apply (proj2 (inject_Z_lt _ _)) in E. rewrite Z.max_l by lia. reflexivity.
  - apply Qltb_ge in E. rewrite H in E.
    apply (proj2 (inject_Z_le _ _)) in E. rewrite Z.max_r by lia. exact H.
Qed.

Lemma py_min2_inject (q : Q) (a hi : Z) :
  (q == inject_Z a)%Q ->
  (py_min2 q (inject_Z hi) == inject_Z (Z.min hi a))%Q.
Proof.
  intros H. unfold py_min2. destruct (Qltb (inject_Z hi) q) eqn:E.
  - apply Qltb_lt in E. rewrite H in E.
    apply (proj2 (inject_Z_lt _ _)) in E. rewrite Z.min_l by lia. reflexivity.
  - apply Qltb_ge in E. rewrite H in E.
    apply (proj2 (inject_Z_le _ _)) in E. rewrite Z.min_r by lia. exact H.
Qed.

Lemma Qtrunc_inject (q : Q) (z : Z) : (q == inject_Z z)%Q -> Qtrunc q = z.
Proof.
  intros H. unfold Qtrunc. destruct (Qneg_b q).
  - rewrite H. apply Qceiling_Z.
  - rewrite H. apply Qfloor_Z.
Qed.

(** One element of the float pipeline of [quantize_nparray] is the integer
    of the formula, provided the storage type can hold it. *)
Lemma quantize_element
    (dt : np_dtype) (x scale : Q) (zero_point cliplow cliphigh : Z) :
  ~ (scale == 0)%Q ->
  fst (dtype_range dt) <= spec_quantized_value scale zero_point cliplow cliphigh x
  <= snd (dtype_range dt) ->
  astype dt
    (np_clip cliplow cliphigh
       (np_add_int (np_round (np_div (Finite x) (Finite scale))) zero_point))
  = spec_quantized_value scale zero_point cliplow cliphigh x.
Proof.
  intros Hs Hfit. unfold np_div.
  destruct (Qeq_bool scale 0) eqn:E; [apply Qeq_bool_iff in E; contradiction |].
  unfold np_round, np_add_int, np_clip, astype.
  set (c := spec_quantized_value scale zero_point cliplow cliphigh x) in *.
  assert (Hv : (py_min2
                  (py_max2 (inject_Z (py_round (x / scale)) + inject_Z zero_point)
                     (inject_Z cliplow)) (inject_Z cliphigh) == inject_Z c)%Q).
  { unfold c, spec_quantized_value. apply py_min2_inject, py_max2_inject.
    now rewrite inject_Z_plus. }
  rewrite (Qtrunc_inject _ _ Hv).
  destruct (dtype_range dt) as [lo hi]. simpl in Hfit.
  destruct Hfit as [H1 H2].
  apply Z.leb_le in H1, H2. now rewrite H1, H2.
Qed.

Lemma Forall2_map_same {A B : Type} (P : A -> B -> Prop) (f : A -> B) (l : list A) :
  (forall x, In x l -> P x (f x)) -> Forall2 P l (map f l).
Proof.
  induction l as [| x t IH]; intros H; simpl; constructor.
  - apply H. now left.
  - apply IH. intros y Hy. apply H. now right.
Qed.

(** [quantize_nparray] on an integer kind, with its two [map]s fused. *)
Lemma quantize_nparray_fused
    (qType : TensorProto) (arr : list Q) (scale : npfloat) (zero_point : Z)
    (low high : option Z) :
  is_integer_kind qType = true ->
  exists dt,
    ONNX_TYPE_TO_NP_TYPE qType = Some dt
    /\ fst (dtype_range dt) <= fst (spec_table_range qType false true)
    /\ snd (spec_table_range qType false true) <= snd (dtype_range dt)
    /\ quantize_nparray qType arr scale zero_point low high
       = let '(cliplow, cliphigh) :=
           clip_bounds (fst (spec_table_range qType false true))
                       (snd (spec_table_range qType false true)) low high in
         Ok {| dtype := dt;
               items :=
                 map (fun x =>
                        astype dt
                          (np_clip cliplow cliphigh
                             (np_add_int (np_round (np_div (Finite x) scale))
                                zero_point))) arr |}.
Proof.
  intros Hk. unfold quantize_nparray.
  destruct qType; try discriminate Hk;
    cbn -[np_div np_clip astype np_round np_add_int Z.max Z.min map];
    eexists; (split; [reflexivity |]); (split; [simpl; lia |]);
    (split; [simpl; lia |]); rewrite !map_map; reflexivity.
Qed.


(** C1, as the code has it: on [[1.0, 2.0, 3.0]] with INT8 and
    [symmetric = True] the call reports [rmin = 1] and [rmax = 3], the
    extremes of the data; the zero point is 0, the scale is 3/127 and the
    quantized buffer is [[42, 85, 127]]. *)
Theorem quantize_data_known_vector :
  exists scale,
    quantize_data [1; 2; 3]%Q INT8 true false
    = Ok (1%Q, 3%Q, 0, Finite scale, {| dtype := int8; items := [42; 85; 127] |})
    /\ (scale == 3 # 127)%Q
    /\ map py_round [1 / (3 # 127); 2 / (3 # 127); 3 / (3 # 127)]%Q = [42; 85; 127].
Proof.
  exists (6 # 254)%Q. split; [vm_compute; reflexivity |].
  split; [reflexivity | vm_compute; reflexivity].
Qed.

End Orchestrator.

(** ** Concrete runs, on the reference runtime *)

Lemma quantize_data_rmin_rmax_witness :
  (In 1%Q [1; 2; 3]%Q /\ forall x, In x [1; 2; 3]%Q -> (1 <= x)%Q)
  /\ (In 3%Q [1; 2; 3]%Q /\ forall x, In x [1; 2; 3]%Q -> (x <= 3)%Q).
Proof.
  apply (quantize_data_rmin_rmax (RT := reference_runtime)
           [1; 2; 3]%Q INT8 true false 1 3 0 (Finite (6 # 254))
           {| dtype := int8; items := [42; 85; 127] |}).
  - discriminate.
  - vm_compute. reflexivity.
Defined.

(** C1 as stated fails: the reported [rmin] is the minimum of the data, 1,
    not 0. *)
Lemma known_vector_rmin_is_not_zero :
  ~ exists rmin rmax zero_point scale q,
      quantize_data [1; 2; 3]%Q INT8 true false
      = Ok (rmin, rmax, zero_point, scale, q)
      /\ (rmin == 0)%Q.
Proof.
  intros (rmin & rmax & zp & s & q & H & H0).
  vm_compute in H. inversion H; subst. discriminate H0.
Qed.





(** The NaN guard at work: all-zero data has standard deviation 0, the
    quotient 0/0 is NaN, and its code 255 has the low seven bits set. *)
Lemma quantize_data_float8_nan_guard_witness :
  exists dmin dmax cmin cmax,
    quantize_data [0]%Q FLOAT8E4M3FN false false
    = Raise (RuntimeError (QuantizedValueIsNaN dmin dmax cmin cmax)).
Proof.
  apply (proj1 (quantize_data_float8_nan_guard (RT := reference_runtime)
                  [0]%Q false)).
  exists 255. split; [vm_compute; now left | reflexivity].
Defined.

Example quantize_data_float8_returns :
  quantize_data [1; 2; 3]%Q FLOAT8E4M3FN false false
  = Ok (1%Q, 3%Q, 0, float8_scale [1; 2; 3]%Q,
        {| dtype := float8e4m3fn; items := [111; 119; 123] |}).
Proof. vm_compute. reflexivity. Qed.

(** * The rest of the module: properties *)

(** ** Rounding *)


Lemma py_round_floor (x : Q) : Qfloor x <= py_round x <= Qfloor x + 1.
Proof.
  unfold py_round.
  destruct (x - inject_Z (Qfloor x) ?= 1 # 2)%Q; [destruct (Z.even _) | |]; lia.
Qed.


(** Rounding keeps the order. *)
Lemma py_round_mono (x y : Q) : (x <= y)%Q -> py_round x <= py_round y.
Proof.
  intros H. pose proof (Qfloor_resp_le x y H) as Hf.
  destruct (Z.eq_dec (Qfloor x) (Qfloor y)) as [E | N].
  - unfold py_round. rewrite E.
    destruct (Qcompare_spec (x - inject_Z (Qfloor y)) (1 # 2)) as [Ex | Lx | Gx];
      destruct (Qcompare_spec (y - inject_Z (Qfloor y)) (1 # 2)) as [Ey | Ly | Gy];
      try (destruct (Z.even (Qfloor y))); try lia; exfalso; lra.
  - pose proof (py_round_floor x). pose proof (py_round_floor y). lia.
Qed.

(** ** Errors of the range table *)

(** X1: [get_qmin_qmax_for_qType] returns exactly on the four integer
    kinds; it raises [NotImplementedError] exactly on FLOAT8E4M3FN and
    [ValueError] on every other kind, whatever the flags. *)
Theorem get_qmin_qmax_for_qType_outcomes
    (qType : TensorProto) (reduce_range symmetric : bool) :
  ((exists r, get_qmin_qmax_for_qType qType reduce_range symmetric = Ok r)
   <-> is_integer_kind qType = true)
  /\ (get_qmin_qmax_for_qType qType reduce_range symmetric = Raise NotImplementedError
      <-> qType = FLOAT8E4M3FN)
  /\ (get_qmin_qmax_for_qType qType reduce_range symmetric = Raise ValueError
      <-> (is_integer_kind qType = false /\ qType <> FLOAT8E4M3FN)).
Proof.
  destruct qType, reduce_range, symmetric; cbn;
    (split; [| split]); split;
    try (intros [r Hr]); try (intros [H1 H2]); intros;
    try discriminate; try congruence; try reflexivity;
    try (eexists; reflexivity); try (split; [reflexivity | discriminate]).
Qed.

(** X2: on an integer kind [get_qrange_for_qType] returns the width
    [qmax - qmin] of the table entry, which is positive and never exceeds
    the width of the full range; with [reduce_range] it is about half of
    it. *)
Theorem get_qrange_for_qType_width
    (qType : TensorProto) (reduce_range symmetric : bool) :
  is_integer_kind qType = true ->
  exists qmin qmax full,
    get_qmin_qmax_for_qType qType reduce_range symmetric = Ok (qmin, qmax)
    /\ get_qrange_for_qType qType reduce_range symmetric = Ok (qmax - qmin)
    /\ get_qrange_for_qType qType false false = Ok full
    /\ 0 < qmax - qmin <= full
    /\ (reduce_range = true -> 2 * (qmax - qmin) <= full + 1).
Proof.
  destruct qType; try discriminate; intros _;
    destruct reduce_range, symmetric; cbn;
    eexists _, _, _; repeat split; try reflexivity; try lia; discriminate.
Qed.

Lemma get_qrange_for_qType_width_witness :
  exists qmin qmax full,
    get_qmin_qmax_for_qType INT8 true false = Ok (qmin, qmax)
    /\ get_qrange_for_qType INT8 true false = Ok (qmax - qmin)
    /\ get_qrange_for_qType INT8 false false = Ok full
    /\ 0 < qmax - qmin <= full
    /\ (true = true -> 2 * (qmax - qmin) <= full + 1).
Proof. exact (get_qrange_for_qType_width INT8 true false eq_refl). Defined.

(** ** Errors and symmetry of the solver *)

(** X3: [compute_scale_zp] raises [ValueError] exactly when the target
    range does not contain zero, [ZeroDivisionError] exactly when the
    target range is the single point 0, and returns otherwise. *)
Theorem compute_scale_zp_outcomes
    (rmin rmax : Q) (qmin qmax : Z) (symmetric : bool) :
  (compute_scale_zp rmin rmax qmin qmax symmetric = Raise ValueError
   <-> (0 < qmin \/ qmax < 0))
  /\ (compute_scale_zp rmin rmax qmin qmax symmetric = Raise ZeroDivisionError
      <-> (qmin = 0 /\ qmax = 0))
  /\ ((exists r, compute_scale_zp rmin rmax qmin qmax symmetric = Ok r)
      <-> (qmin <= 0 <= qmax /\ qmin < qmax)).
Proof.
  destruct (Z_lt_dec 0 qmin) as [H1 | H1]; [| destruct (Z_lt_dec qmax 0) as [H2 | H2]].
  1, 2: assert (E : compute_scale_zp rmin rmax qmin qmax symmetric = Raise ValueError)
        by (unfold compute_scale_zp; rewrite precondition_fails by lia; reflexivity);
        rewrite E; repeat split; intros; try lia; try discriminate; try tauto;
        match goal with H : exists _, _ |- _ => destruct H; discriminate end.
  destruct (Z.eq_dec qmin qmax) as [E | N].
  - assert (qmin = 0 /\ qmax = 0) as [-> ->] by lia.
    assert (E0 : compute_scale_zp rmin rmax 0 0 symmetric = Raise ZeroDivisionError)
      by (unfold compute_scale_zp; destruct symmetric; reflexivity).
    rewrite E0. repeat split; intros; try lia; try discriminate;
      match goal with H : exists _, _ |- _ => destruct H; discriminate end.
  - destruct (compute_scale_zp_sound rmin rmax qmin qmax symmetric) as (zp & s & E & _);
      [lia | lia |].
    rewrite E. repeat split; intros; try lia; try discriminate; eauto.
Qed.




(** ** The transform on integer kinds *)

Section Transform.
Context {RT : Runtime}.

(** Without [low] and [high], the items are the integers of the formula,
    clipped to the table range. *)
Lemma quantize_nparray_plain
    (qType : TensorProto) (arr : list Q) (s : Q) (zero_point : Z) :
  is_integer_kind qType = true -> ~ (s == 0)%Q ->
  exists dt,
    ONNX_TYPE_TO_NP_TYPE qType = Some dt
    /\ quantize_nparray qType arr (Finite s) zero_point None None
       = Ok {| dtype := dt;
               items :=
                 map (spec_quantized_value s zero_point
                        (fst (spec_table_range qType false true))
                        (snd (spec_table_range qType false true))) arr |}.
Proof.
  intros Hk Hs.
  destruct (quantize_nparray_fused qType arr (Finite s) zero_point None None Hk)
    as (dt & Hdt & Hlo & Hhi & Heq).
  pose proof (spec_table_range_zero qType false true) as Hz.
  exists dt. split; [exact Hdt |]. rewrite Heq.
  unfold clip_bounds. f_equal. f_equal. apply map_ext. intros x.
  apply quantize_element; [exact Hs |].
  unfold spec_quantized_value. lia.
Qed.

Lemma spec_quantized_value_range (s : Q) (zero_point lo hi : Z) (x : Q) :
  lo <= hi -> lo <= spec_quantized_value s zero_point lo hi x <= hi.
Proof. unfold spec_quantized_value. lia. Qed.

Lemma spec_quantized_value_mono (s : Q) (zero_point lo hi : Z) (x y : Q) :
  (0 < s)%Q -> (x <= y)%Q ->
  spec_quantized_value s zero_point lo hi x
  <= spec_quantized_value s zero_point lo hi y.
Proof.
  intros Hs Hxy. unfold spec_quantized_value.
  assert (H : py_round (x / s) <= py_round (y / s)).
  { apply py_round_mono. unfold Qdiv. apply Qmult_le_compat_r; [exact Hxy |].
    apply Qlt_le_weak, Qinv_lt_0_compat, Hs. }
  lia.
Qed.



(** X6: on an integer kind with a positive scale the transform keeps the
    order of the data: a larger value never gets a smaller code. *)
Theorem quantize_nparray_monotone
    (qType : TensorProto) (x y s : Q) (zero_point : Z) :
  is_integer_kind qType = true -> (0 < s)%Q -> (x <= y)%Q ->
  exists dt qx qy,
    quantize_nparray qType [x; y] (Finite s) zero_point None None
    = Ok {| dtype := dt; items := [qx; qy] |}
    /\ qx <= qy.
Proof.
  intros Hk Hs Hxy.
  destruct (quantize_nparray_plain qType [x; y] s zero_point Hk) as (dt & _ & E);
    [lra |].
  eexists dt, _, _. split; [exact E |].
  now apply spec_quantized_value_mono.
Qed.


End Transform.

Lemma quantize_nparray_monotone_witness :
  exists dt qx qy,
    quantize_nparray INT8 [1; 2]%Q (Finite (3 # 127)) 0 None None
    = Ok {| dtype := dt; items := [qx; qy] |}
    /\ qx <= qy.
Proof.
  apply (quantize_nparray_monotone (RT := reference_runtime) INT8 1 2 (3 # 127) 0);
    [reflexivity | reflexivity | discriminate].
Defined.


(** ** The orchestrator on integer kinds *)

Section Bulk.
Context {RT : Runtime}.

Lemma data_range_ordered (data : list Q) (rmin rmax : Q) :
  data_range data = Ok (rmin, rmax) ->
  (rmin <= rmax)%Q /\ forall x, In x data -> (rmin <= x <= rmax)%Q.
Proof.
  intros H. destruct data as [| x0 t].
  - inversion H. split; [lra | intros x []].
  - destruct (data_range_nonempty (x0 :: t) rmin rmax) as [Hmin Hmax];
      [discriminate | exact H |].
    destruct (py_min_spec _ _ Hmin) as [Hin Hle].
    destruct (py_max_spec _ _ Hmax) as [_ Hge].
    split.
    + specialize (Hle rmin Hin). specialize (Hge rmin Hin). lra.
    + intros x Hx. split; [now apply Hle | now apply Hge].
Qed.

(** What the integer path returns, in terms of the solver and of the
    formula of the transform. *)
Lemma quantize_data_integer_result
    (data : list Q) (qType : TensorProto) (symmetric reduce_range : bool) :
  is_integer_kind qType = true ->
  exists rmin rmax zero_point s dt,
    data_range data = Ok (rmin, rmax)
    /\ (0 < s)%Q
    /\ ONNX_TYPE_TO_NP_TYPE qType = Some dt
    /\ quantize_data data qType symmetric reduce_range
       = Ok (rmin, rmax, zero_point, Finite s,
             {| dtype := dt;
                items :=
                  map (spec_quantized_value s zero_point
                         (fst (spec_table_range qType false true))
                         (snd (spec_table_range qType false true))) data |})
    /\ ((data = [] /\ zero_point = 0 /\ s = 1%Q)
        \/ (data <> []
            /\ compute_scale_zp rmin rmax
                 (fst (spec_table_range qType reduce_range symmetric))
                 (snd (spec_table_range qType reduce_range symmetric)) symmetric
               = Ok (zero_point, s))).
Proof.
  intros Hk. rewrite (quantize_data_integer _ _ _ _ Hk).
  destruct (data_range_ok data) as (rmin & rmax & Hr). rewrite Hr.
  cbn [bind].
  destruct data as [| x0 t].
  - cbn [nonempty bind].
    destruct (quantize_nparray_plain qType [] 1 0 Hk) as (dt & Hdt & E);
      [discriminate |].
    rewrite E. cbn [bind].
    exists rmin, rmax, 0, 1%Q, dt.
    split; [reflexivity |]. split; [reflexivity |]. split; [exact Hdt |].
    split; [reflexivity |]. left. repeat split.
  - cbn [nonempty].
    pose proof (get_qmin_qmax_integer qType reduce_range symmetric Hk) as Hg.
    pose proof (spec_table_range_zero qType reduce_range symmetric) as Hz.
    pose proof (spec_table_range_width qType reduce_range symmetric Hk) as Hw.
    destruct (spec_table_range qType reduce_range symmetric) as [qmin qmax].
    cbn [fst snd] in *.
    destruct (compute_scale_zp_sound rmin rmax qmin qmax symmetric Hz Hw)
      as (zp & s & Hc & Hs & _).
    rewrite Hg. cbn [bind]. rewrite Hc. cbn [bind].
    destruct (quantize_nparray_plain qType (x0 :: t) s zp Hk) as (dt & Hdt & E);
      [lra |].
    rewrite E. cbn [bind].
    exists rmin, rmax, zp, s, dt.
    split; [reflexivity |]. split; [exact Hs |]. split; [exact Hdt |].
    split; [reflexivity |]. right. split; [discriminate | exact Hc].
Qed.

(** X8: on the four integer kinds [quantize_data] always returns, for
    every buffer and both flags.  The buffer has the storage type of the
    kind and one item per datum, [rmin <= rmax], and every item lies in
    the range of the table entry for [reduce_range = False, symmetric =
    True] (e.g. [[-127, 127]] for INT8), whatever flags were passed. *)
Theorem quantize_data_integer_succeeds
    (data : list Q) (qType : TensorProto) (symmetric reduce_range : bool) :
  is_integer_kind qType = true ->
  exists rmin rmax zero_point s dt out,
    quantize_data data qType symmetric reduce_range
    = Ok (rmin, rmax, zero_point, Finite s, {| dtype := dt; items := out |})
    /\ ONNX_TYPE_TO_NP_TYPE qType = Some dt
    /\ List.length out = List.length data
    /\ (rmin <= rmax)%Q
    /\ Forall (fun q => fst (spec_table_range qType false true) <= q
                        <= snd (spec_table_range qType false true)) out.
Proof.
  intros Hk.
  destruct (quantize_data_integer_result data qType symmetric reduce_range Hk)
    as (rmin & rmax & zp & s & dt & Hr & _ & Hdt & E & _).
  eexists rmin, rmax, zp, s, dt, _.
  split; [exact E |]. split; [exact Hdt |].
  split; [apply length_map |].
  split; [apply (data_range_ordered data), Hr |].
  apply Forall_forall. intros q Hq. apply in_map_iff in Hq.
  destruct Hq as (x & <- & _). apply spec_quantized_value_range.
  pose proof (spec_table_range_zero qType false true). lia.
Qed.





End Bulk.

Lemma quantize_data_integer_succeeds_witness :
  exists rmin rmax zero_point s dt out,
    quantize_data [0; 255]%Q INT8 false true
    = Ok (rmin, rmax, zero_point, Finite s, {| dtype := dt; items := out |})
    /\ ONNX_TYPE_TO_NP_TYPE INT8 = Some dt
    /\ List.length out = List.length [0; 255]%Q
    /\ (rmin <= rmax)%Q
    /\ Forall (fun q => fst (spec_table_range INT8 false true) <= q
                        <= snd (spec_table_range INT8 false true)) out.
Proof.
  exact (quantize_data_integer_succeeds (RT := reference_runtime)
           [0; 255]%Q INT8 false true eq_refl).
Defined.

(** ** Symmetric quantization to a signed kind *)



Section SymmetricSigned.
Context {RT : Runtime}.


End SymmetricSigned.


(** ** Enumerations *)

Lemma enum_getitem_in {A : Type} (members : list (string * A)) (name : string) (a : A) :
  enum_getitem members name = Some a -> In (name, a) members.
Proof.
  induction members as [| [n b] rest IH]; simpl; [discriminate |].
  destruct (String.eqb n name) eqn:E.
  - apply String.eqb_eq in E. intros H. inversion H; subst. now left.
  - intros H. right. now apply IH.
Qed.

Lemma from_string_in_ok {A : Type} (members : list (string * A)) (name : string) (a : A) :
  from_string_in members name = Ok a -> In (name, a) members.
Proof.
  unfold from_string_in. destruct (enum_getitem members name) eqn:E; [| discriminate].
  intros H. inversion H; subst. now apply enum_getitem_in.
Qed.

Lemma from_string_in_raise {A : Type} (members : list (string * A)) (name : string) :
  (forall a, from_string_in members name <> Ok a) ->
  from_string_in members name = Raise ValueError.
Proof.
  unfold from_string_in. destruct (enum_getitem members name); [| reflexivity].
  intros H. now destruct (H a).
Qed.

(** X11: [QuantType.from_string] inverts [str]: it returns the member whose
    name is the argument, and raises [ValueError] on every string that is
    not the name of a member. *)
Theorem QuantType_from_string_round_trip :
  (forall q, QuantType_from_string (QuantType_str q) = Ok q)
  /\ (forall name q, QuantType_from_string name = Ok q -> name = QuantType_str q)
  /\ (forall name,
        (forall q, name <> QuantType_str q) ->
        QuantType_from_string name = Raise ValueError).
Proof.
  assert (H2 : forall name q, QuantType_from_string name = Ok q ->
                              name = QuantType_str q).
  { intros name q H. apply from_string_in_ok in H. simpl in H.
    repeat destruct H as [H | H]; try contradiction; inversion H; reflexivity. }
  split; [| split].
  - intros []; reflexivity.
  - exact H2.
  - intros name Hn. apply from_string_in_raise. intros q H.
    apply (Hn q). now apply H2.
Qed.

(** X12: the same round trip for [QuantizationMode], [QuantizedValueType]
    and [QuantFormat]: [from_string(str(m))] is [m], and a string that
    [from_string] accepts is the name of the member it returns. *)
Theorem from_string_round_trips :
  ((forall m, QuantizationMode_from_string (QuantizationMode_str m) = Ok m)
   /\ (forall name m, QuantizationMode_from_string name = Ok m ->
                      name = QuantizationMode_str m))
  /\ ((forall v, QuantizedValueType_from_string (QuantizedValueType_str v) = Ok v)
      /\ (forall name v, QuantizedValueType_from_string name = Ok v ->
                         name = QuantizedValueType_str v))
  /\ ((forall f, QuantFormat_from_string (QuantFormat_str f) = Ok f)
      /\ (forall name f, QuantFormat_from_string name = Ok f ->
                         name = QuantFormat_str f)).
Proof.
  repeat split; try (intros []; reflexivity);
    intros name m H; apply from_string_in_ok in H; simpl in H;
    repeat destruct H as [H | H]; try contradiction; inversion H; reflexivity.
Qed.

Section KindsOfQuantType.
Context {RT : Runtime}.


End KindsOfQuantType.

(** ** Attributes *)

(** X14: [attribute_to_kwarg] returns exactly for the types 1 to 10 and
    raises [ValueError] for type 0 (undefined) and for every other type
    (sparse tensors, type protos); the dictionary it returns has a single
    key, the name of the attribute. *)
Theorem attribute_to_kwarg_outcomes {T G : Type} (attribute : AttributeProto.message T G) :
  (1 <= AttributeProto.type attribute <= 10 ->
   exists value,
     attribute_to_kwarg attribute = Ok [(AttributeProto.name attribute, value)])
  /\ (~ (1 <= AttributeProto.type attribute <= 10) ->
      attribute_to_kwarg attribute = Raise ValueError).
Proof.
  unfold attribute_to_kwarg. cbv zeta.
  set (ty := AttributeProto.type attribute).
  split; intros H.
  - assert (Hc : ty = 1 \/ ty = 2 \/ ty = 3 \/ ty = 4 \/ ty = 5 \/ ty = 6
                 \/ ty = 7 \/ ty = 8 \/ ty = 9 \/ ty = 10) by lia.
    repeat destruct Hc as [Hc | Hc]; rewrite Hc; cbn; eexists; reflexivity.
  - destruct (ty =? 0) eqn:E0; [reflexivity |].
    repeat match goal with
           | |- context [?a =? ?b] =>
               let E := fresh "E" in
               destruct (a =? b) eqn:E; [apply Z.eqb_eq in E; lia |]
           end.
    reflexivity.
Qed.

Lemma attribute_to_kwarg_outcomes_witness :
  exists value,
    attribute_to_kwarg
      {| AttributeProto.name := "axis"; AttributeProto.type := 2;
         AttributeProto.f := 0; AttributeProto.i := 1; AttributeProto.s := "";
         AttributeProto.t := tt; AttributeProto.g := tt;
         AttributeProto.floats := []; AttributeProto.ints := [];
         AttributeProto.strings := []; AttributeProto.tensors := [];
         AttributeProto.graphs := [] |}
    = Ok [("axis"%string, value)].
Proof.
  apply (proj1 (attribute_to_kwarg_outcomes
                  {| AttributeProto.name := "axis"; AttributeProto.type := 2;
                     AttributeProto.f := 0; AttributeProto.i := 1;
                     AttributeProto.s := "";
                     AttributeProto.t := tt; AttributeProto.g := tt;
                     AttributeProto.floats := []; AttributeProto.ints := [];
                     AttributeProto.strings := []; AttributeProto.tensors := [];
                     AttributeProto.graphs := [] |})).
  cbn. lia.
Defined.

(** ** Look-ups *)

(** X15: [find_by_name] returns [None] exactly when no item has the
    name, and otherwise the first item that has it. *)
Theorem find_by_name_first {A : Type} (name : A -> string)
    (item_name : string) (item_list : list A) :
  (find_by_name name item_name item_list = None
   <-> forall item, In item item_list -> name item <> item_name)
  /\ (forall item,
        find_by_name name item_name item_list = Some item ->
        exists before after,
          item_list = before ++ item :: after
          /\ name item = item_name
          /\ forall y, In y before -> name y <> item_name).
Proof.
  unfold find_by_name. cbv zeta.
  induction item_list as [| x rest [IH1 IH2]]; simpl.
  - split; [split; [intros _ item [] | reflexivity] | discriminate].
  - destruct (String.eqb (name x) item_name) eqn:E.
    + apply String.eqb_eq in E. split.
      * split; [discriminate |]. intros H. exfalso. apply (H x); [now left | exact E].
      * intros item H. inversion H; subst item.
        exists [], rest. split; [reflexivity |]. split; [exact E |]. intros y [].
    + apply String.eqb_neq in E. split.
      * rewrite IH1. split.
        -- intros H item [<- | Hin]; [exact E | now apply H].
        -- intros H item Hin. apply H. now right.
      * intros item H. destruct (IH2 item H) as (before & after & -> & Hn & Hb).
        exists (x :: before), after. split; [reflexivity |]. split; [exact Hn |].
        intros y [<- | Hy]; [exact E | now apply Hb].
Qed.

Lemma get_elem_index_loop (elem_name : string) (rest pre : list string) (acc : Z) :
  fold_left
    (fun elem_idx i =>
       if String.eqb (nth i (pre ++ rest) EmptyString) elem_name then Z.of_nat i
       else elem_idx)
    (seq (List.length pre) (List.length rest)) acc
  = last_index_from elem_name rest (List.length pre) acc.
Proof.
  revert pre acc. induction rest as [| x r IH]; intros pre acc; [reflexivity |].
  cbn [List.length seq fold_left last_index_from].
  rewrite nth_middle.
  specialize (IH (pre ++ [x])
                 (if String.eqb x elem_name then Z.of_nat (List.length pre) else acc)).
  rewrite <- app_assoc in IH. cbn [app] in IH.
  rewrite length_app in IH. cbn [List.length] in IH.
  rewrite Nat.add_1_r in IH. exact IH.
Qed.

Lemma last_index_from_spec (elem_name : string) (rest : list string)
    (start : nat) (acc : Z) :
  (~ In elem_name rest -> last_index_from elem_name rest start acc = acc)
  /\ (In elem_name rest ->
      exists k,
        last_index_from elem_name rest start acc = Z.of_nat (start + k)
        /\ (k < List.length rest)%nat
        /\ nth k rest EmptyString = elem_name
        /\ forall j, (k < j < List.length rest)%nat ->
                     nth j rest EmptyString <> elem_name).
Proof.
  revert start acc. induction rest as [| x r IH]; intros start acc.
  - split; [reflexivity | intros []].
  - cbn [last_index_from].
    destruct (IH (S start)
                 (if String.eqb x elem_name then Z.of_nat start else acc))
      as [IHno IHyes].
    destruct (in_dec string_dec elem_name r) as [Hin | Hnin].
    + split; [intros H; exfalso; apply H; now right |]. intros _.
      destruct (IHyes Hin) as (k & Hk & Hlt & Hnth & Hlast).
      exists (S k). split; [rewrite Hk; f_equal; lia |].
      split; [cbn; lia |]. split; [exact Hnth |].
      intros j Hj. destruct j as [| j]; [lia |]. cbn. apply Hlast. cbn in Hj. lia.
    + rewrite (IHno Hnin). destruct (String.eqb x elem_name) eqn:E.
      * apply String.eqb_eq in E. split; [intros H; exfalso; apply H; now left |].
        intros _. exists 0%nat. split; [f_equal; lia |].
        split; [cbn; lia |]. split; [exact E |].
        intros j Hj. destruct j as [| j]; [lia |]. cbn. intros Heq.
        apply Hnin. rewrite <- Heq. apply nth_In. cbn in Hj. lia.
      * apply String.eqb_neq in E. split; [reflexivity |].
        intros [H | H]; [contradiction | contradiction].
Qed.

(** X16: [get_elem_index] returns -1 exactly when the element does not
    occur; otherwise it returns the index of the last occurrence (the loop
    does not stop at the first one). *)
Theorem get_elem_index_last (elem_name : string) (elem_list : list string) :
  (get_elem_index elem_name elem_list = -1 <-> ~ In elem_name elem_list)
  /\ (In elem_name elem_list ->
      exists k,
        get_elem_index elem_name elem_list = Z.of_nat k
        /\ (k < List.length elem_list)%nat
        /\ nth k elem_list EmptyString = elem_name
        /\ forall j, (k < j < List.length elem_list)%nat ->
                     nth j elem_list EmptyString <> elem_name).
Proof.
  assert (E : get_elem_index elem_name elem_list
              = last_index_from elem_name elem_list 0 (-1))
    by (apply (get_elem_index_loop elem_name elem_list [] (-1))).
  rewrite E.
  destruct (last_index_from_spec elem_name elem_list 0 (-1)) as [Hno Hyes].
  split.
  - split; [| exact Hno]. intros H Hin.
    destruct (Hyes Hin) as (k & Hk & _). lia.
  - intros Hin. destruct (Hyes Hin) as (k & Hk & Hrest).
    exists k. split; [exact Hk | exact Hrest].
Qed.

Lemma get_elem_index_last_witness :
  exists k,
    get_elem_index "x" ["x"; "y"; "x"; "z"]%string = Z.of_nat k
    /\ (k < List.length ["x"; "y"; "x"; "z"]%string)%nat
    /\ nth k ["x"; "y"; "x"; "z"]%string EmptyString = "x"%string
    /\ forall j, (k < j < List.length ["x"; "y"; "x"; "z"]%string)%nat ->
                 nth j ["x"; "y"; "x"; "z"]%string EmptyString <> "x"%string.
Proof.
  apply (proj2 (get_elem_index_last "x" ["x"; "y"; "x"; "z"]%string)).
  now left.
Defined.

Example get_elem_index_takes_the_last :
  get_elem_index "x" ["x"; "y"; "x"; "z"]%string = 2.
Proof. reflexivity. Qed.

(** ** Smoothing a histogram *)

Lemma Qsum_acc (l : list Q) (a : Q) :
  (fold_left (fun acc x => Qred (acc + x)) l a == a + Qsum l)%Q.
Proof.
  revert a. induction l as [| x l IH]; intros a; unfold Qsum; cbn [fold_left].
  - ring.
  - rewrite IH, (IH (Qred (0 + x))), !Qred_correct. ring.
Qed.

Lemma Qsum_cons (x : Q) (l : list Q) : (Qsum (x :: l) == x + Qsum l)%Q.
Proof.
  unfold Qsum at 1. cbn [fold_left]. rewrite Qsum_acc, Qred_correct. ring.
Qed.

Lemma count_zeros_le (p : list Q) : (count_zeros p <= List.length p)%nat.
Proof. apply filter_length_le. Qed.

Lemma count_zeros_cons (x : Q) (p : list Q) :
  count_zeros (x :: p)
  = if Qeq_bool x 0 then S (count_zeros p) else count_zeros p.
Proof. unfold count_zeros. simpl. now destruct (Qeq_bool x 0). Qed.

Lemma n_zeros_count (p : list Q) :
  (Qsum (map (fun x => if Qeq_bool x 0 then 1 else 0) p)
   == inject_Z (Z.of_nat (count_zeros p)))%Q.
Proof.
  induction p as [| x p IH]; [reflexivity |].
  cbn [map]. rewrite Qsum_cons, IH, count_zeros_cons.
  destruct (Qeq_bool x 0).
  - rewrite Nat2Z.inj_succ, <- Z.add_1_l, inject_Z_plus. reflexivity.
  - ring.
Qed.

Lemma n_nonzeros_count (p : list Q) :
  (Qsum (map (fun x => if Qeq_bool x 0 then 0 else 1) p)
   == inject_Z (Z.of_nat (List.length p - count_zeros p)))%Q.
Proof.
  induction p as [| x p IH]; [reflexivity |].
  cbn [map List.length]. rewrite Qsum_cons, IH, count_zeros_cons.
  pose proof (count_zeros_le p) as Hle.
  destruct (Qeq_bool x 0).
  - replace (S (List.length p) - S (count_zeros p))%nat
      with (List.length p - count_zeros p)%nat by lia. ring.
  - replace (S (List.length p) - count_zeros p)%nat
      with (S (List.length p - count_zeros p)) by lia.
    rewrite Nat2Z.inj_succ, <- Z.add_1_l, inject_Z_plus. reflexivity.
Qed.

Lemma n_nonzeros_value (p : list Q) :
  (inject_Z (Z.of_nat (List.length p))
   - Qsum (map (fun x => if Qeq_bool x 0 then 1 else 0) p)
   == inject_Z (Z.of_nat (List.length p - count_zeros p)))%Q.
Proof.
  rewrite n_zeros_count. pose proof (count_zeros_le p) as Hle.
  rewrite Nat2Z.inj_sub by exact Hle. rewrite inject_Z_sub. reflexivity.
Qed.

Lemma count_zeros_all (p : list Q) :
  (List.length p - count_zeros p = 0)%nat <-> Forall (fun x => x == 0)%Q p.
Proof.
  induction p as [| x p IH].
  - split; [constructor | reflexivity].
  - rewrite count_zeros_cons. cbn [List.length].
    pose proof (count_zeros_le p) as Hle.
    destruct (Qeq_bool x 0) eqn:E.
    + apply Qeq_bool_iff in E. split.
      * intros H. constructor; [exact E |]. apply IH. lia.
      * intros H. inversion H; subst. apply IH in H3. lia.
    + apply Qeq_bool_neq in E. split; [lia |].
      intros H. inversion H; subst. contradiction.
Qed.

(** The three array operations of [hist += ...], element by element. *)
Lemma smoothed_elementwise (p : list Q) (eps c : Q) :
  np_add_arrays p
    (np_add_arrays
       (np_scale eps (map (fun x => if Qeq_bool x 0 then 1 else 0)%Q p))
       (np_scale c (map (fun x => if Qeq_bool x 0 then 0 else 1)%Q p)))
  = map (fun x =>
           x + (eps * (if Qeq_bool x 0 then 1 else 0)
                + c * (if Qeq_bool x 0 then 0 else 1)))%Q p.
Proof.
  unfold np_add_arrays, np_scale.
  induction p as [| x p IH]; [reflexivity |].
  cbn [map combine fst snd]. f_equal. exact IH.
Qed.

Lemma Qsum_smoothed (p : list Q) (eps c : Q) :
  (Qsum (map (fun x =>
                x + (eps * (if Qeq_bool x 0 then 1 else 0)
                     + c * (if Qeq_bool x 0 then 0 else 1))) p)
   == Qsum p
      + eps * Qsum (map (fun x => if Qeq_bool x 0 then 1 else 0) p)
      + c * Qsum (map (fun x => if Qeq_bool x 0 then 0 else 1) p))%Q.
Proof.
  induction p as [| x p IH].
  - cbn [map]. unfold Qsum. cbn [fold_left]. ring.
  - cbn [map]. rewrite !Qsum_cons, IH. ring.
Qed.

(** [smooth_distribution], with its counts made explicit. *)
Lemma smooth_distribution_eq (p : list Q) (eps : Q) :
  smooth_distribution p eps
  = let n_zeros := Qsum (map (fun x => if Qeq_bool x 0 then 1 else 0)%Q p) in
    let n_nonzeros := (inject_Z (Z.of_nat (List.length p)) - n_zeros)%Q in
    if Qeq_bool n_nonzeros 0 then Ok MinusOne
    else
      let eps1 := (eps * n_zeros / n_nonzeros)%Q in
      if negb (Qltb eps1 1) then Raise AssertionError
      else
        let hist :=
          map (fun x =>
                 x + (eps * (if Qeq_bool x 0 then 1 else 0)
                      + - eps1 * (if Qeq_bool x 0 then 0 else 1)))%Q p in
        if negb (Nat.eqb (List.length (filter (fun h => Qle_bool h 0) hist)) 0)
        then Raise AssertionError
        else Ok (Smoothed hist).
Proof.
  unfold smooth_distribution. cbv zeta. rewrite smoothed_elementwise. reflexivity.
Qed.

Lemma no_nonpositive (hist : list Q) :
  Nat.eqb (List.length (filter (fun h => Qle_bool h 0) hist)) 0 = true
  <-> Forall (fun h => 0 < h)%Q hist.
Proof.
  rewrite Nat.eqb_eq. induction hist as [| h t IH]; simpl.
  - split; [constructor | reflexivity].
  - destruct (Qle_bool h 0) eqn:E.
    + apply Qle_bool_iff in E. split; [discriminate |].
      intros H. inversion H; subst. lra.
    + split.
      * intros H. constructor; [| now apply IH].
        apply Qnot_le_lt. intros L. apply Qle_bool_iff in L. congruence.
      * intros H. inversion H; subst. now apply IH.
Qed.

(** X17: [smooth_distribution] returns [-1] exactly when every entry of
    the histogram is zero, the empty histogram included. *)
Theorem smooth_distribution_all_zero (p : list Q) (eps : Q) :
  smooth_distribution p eps = Ok MinusOne <-> Forall (fun x => x == 0)%Q p.
Proof.
  rewrite smooth_distribution_eq. cbv zeta.
  rewrite <- count_zeros_all.
  destruct (Qeq_bool _ 0) eqn:E.
  - apply Qeq_bool_iff in E. rewrite n_nonzeros_value in E.
    change 0%Q with (inject_Z 0) in E.
    apply (proj1 (inject_Z_injective _ _)) in E.
    split; [intros _; lia | reflexivity].
  - apply Qeq_bool_neq in E. rewrite n_nonzeros_value in E.
    split.
    + destruct (negb _); [discriminate |]. destruct (negb _); discriminate.
    + intros H. exfalso. apply E. rewrite H. reflexivity.
Qed.

(** X18: when [smooth_distribution] returns an array, it has the length
    of the histogram and the same total; every entry is positive; a zero
    entry has become [eps] and a non-zero entry has lost
    [eps * n_zeros / n_nonzeros]. *)
Theorem smooth_distribution_smoothed (p : list Q) (eps : Q) (hist : list Q) :
  smooth_distribution p eps = Ok (Smoothed hist) ->
  List.length hist = List.length p
  /\ (Qsum hist == Qsum p)%Q
  /\ Forall (fun h => 0 < h)%Q hist
  /\ Forall2
       (fun x h =>
          ((x == 0)%Q -> (h == eps)%Q)
          /\ (~ (x == 0)%Q -> (h == x - smoothing_loss p eps)%Q))
       p hist.
Proof.
  rewrite smooth_distribution_eq. cbv zeta.
  destruct (Qeq_bool _ 0) eqn:E; [discriminate |].
  apply Qeq_bool_neq in E.
  destruct (negb (Qltb _ 1)); [discriminate |].
  destruct (negb (Nat.eqb _ 0)) eqn:Epos; [discriminate |].
  apply negb_false_iff, no_nonpositive in Epos.
  intros H. injection H as <-.
  assert (Hloss :
    (eps * Qsum (map (fun x => if Qeq_bool x 0 then 1 else 0) p)
     / (inject_Z (Z.of_nat (List.length p))
        - Qsum (map (fun x => if Qeq_bool x 0 then 1 else 0) p))
     == smoothing_loss p eps)%Q).
  { unfold smoothing_loss. rewrite n_nonzeros_value, n_zeros_count. reflexivity. }
  split; [apply length_map |].
  split; [| split; [exact Epos |]].
  - rewrite Qsum_smoothed.
    assert (Hn : (Qsum (map (fun x => if Qeq_bool x 0 then 0 else 1) p)
                  == inject_Z (Z.of_nat (List.length p))
                     - Qsum (map (fun x => if Qeq_bool x 0 then 1 else 0) p))%Q)
      by (rewrite n_nonzeros_count, n_nonzeros_value; reflexivity).
    rewrite Hn. field. exact E.
  - apply Forall2_map_same. intros x _.
    destruct (Qeq_bool x 0) eqn:Ex.
    + apply Qeq_bool_iff in Ex. split; [intros _; rewrite Ex; ring | intros N; contradiction].
    + apply Qeq_bool_neq in Ex. split; [intros Z0; contradiction |].
      intros _. rewrite Hloss. ring.
Qed.


Lemma smooth_distribution_smoothed_witness :
  exists hist,
    smooth_distribution [2; 0; 2]%Q (1 # 2) = Ok (Smoothed hist)
    /\ (Qsum hist == Qsum [2; 0; 2])%Q
    /\ Forall (fun h => 0 < h)%Q hist.
Proof.
  assert (H : exists hist,
             smooth_distribution [2; 0; 2]%Q (1 # 2) = Ok (Smoothed hist))
    by (eexists; vm_compute; reflexivity).
  destruct H as [hist H]. exists hist. split; [exact H |].
  destruct (smooth_distribution_smoothed _ _ _ H) as (_ & Hs & Hp & _).
  split; assumption.
Defined.


(** ** Model metadata *)

Lemma dict_get_update (d : py_dict) (k v k' : string) :
  dict_get (dict_update d k v) k'
  = if String.eqb k k' then Some v else dict_get d k'.
Proof.
  induction d as [| [k0 v0] rest IH]; [reflexivity |].
  cbn [dict_update]. destruct (String.eqb k0 k) eqn:E0.
  - apply String.eqb_eq in E0. subst k0. cbn [dict_get].
    now destruct (String.eqb k k').
  - cbn [dict_get]. rewrite IH. destruct (String.eqb k0 k') eqn:E1; [| reflexivity].
    apply String.eqb_eq in E1. subst k'. now rewrite String.eqb_sym, E0.
Qed.

Lemma dict_update_keys (d : py_dict) (k v k' : string) :
  In k' (map fst (dict_update d k v)) <-> k' = k \/ In k' (map fst d).
Proof.
  induction d as [| [k0 v0] rest IH]; cbn [dict_update map fst In].
  - intuition congruence.
  - destruct (String.eqb k0 k) eqn:E0; cbn [map fst In].
    + apply String.eqb_eq in E0. intuition congruence.
    + rewrite IH. intuition congruence.
Qed.

Lemma dict_update_NoDup (d : py_dict) (k v : string) :
  NoDup (map fst d) -> NoDup (map fst (dict_update d k v)).
Proof.
  induction d as [| [k0 v0] rest IH]; cbn [dict_update map fst]; intros H.
  - repeat constructor. intros [].
  - inversion H as [| ? ? Hnin Hrest]; subst.
    destruct (String.eqb k0 k) eqn:E0; cbn [map fst].
    + constructor; assumption.
    + constructor; [| now apply IH].
      rewrite dict_update_keys. intros [-> | Hin]; [| contradiction].
      now rewrite String.eqb_refl in E0.
Qed.

Lemma dict_update_fresh (d : py_dict) (k v : string) :
  ~ In k (map fst d) -> dict_update d k v = d ++ [(k, v)].
Proof.
  induction d as [| [k0 v0] rest IH]; cbn [dict_update map fst In app]; intros H.
  - reflexivity.
  - destruct (String.eqb k0 k) eqn:E0.
    + apply String.eqb_eq in E0. exfalso. apply H. now left.
    + f_equal. apply IH. intros Hin. apply H. now right.
Qed.

Lemma last_value_acc (k : string) (props : list (string * string)) (acc : option string) :
  fold_left (fun a p => if String.eqb (fst p) k then Some (snd p) else a) props acc
  = match last_value k props with Some v => Some v | None => acc end.
Proof.
  unfold last_value. revert acc.
  induction props as [| p ps IH]; intros acc; [reflexivity |].
  cbn [fold_left]. rewrite IH, (IH (if String.eqb (fst p) k then _ else None)).
  destruct (fold_left _ ps None); [reflexivity |].
  now destruct (String.eqb (fst p) k).
Qed.

Lemma fold_update_get (props : list (string * string)) (d : py_dict) (k : string) :
  dict_get (fold_left (fun d p => dict_update d (fst p) (snd p)) props d) k
  = match last_value k props with Some v => Some v | None => dict_get d k end.
Proof.
  revert d. induction props as [| p ps IH]; intros d; [reflexivity |].
  cbn [fold_left]. rewrite IH, dict_get_update.
  unfold last_value at 2. cbn [fold_left]. rewrite last_value_acc.
  destruct (last_value k ps); [reflexivity |].
  now destruct (String.eqb (fst p) k).
Qed.

Lemma fold_update_NoDup (props : list (string * string)) (d : py_dict) :
  NoDup (map fst d) ->
  NoDup (map fst (fold_left (fun d p => dict_update d (fst p) (snd p)) props d)).
Proof.
  revert d. induction props as [| p ps IH]; intros d H; [exact H |].
  cbn [fold_left]. apply IH. now apply dict_update_NoDup.
Qed.

Lemma fold_update_append (props : list (string * string)) (d : py_dict) :
  NoDup (map fst (d ++ props)) ->
  fold_left (fun d p => dict_update d (fst p) (snd p)) props d = d ++ props.
Proof.
  revert d. induction props as [| [k v] ps IH]; intros d H.
  - now rewrite app_nil_r.
  - cbn [fold_left fst snd].
    assert (Hk : ~ In k (map fst d)).
    { rewrite map_app in H. cbn [map fst] in H.
      apply NoDup_remove_2 in H. intros Hin. apply H. apply in_or_app. now left. }
    rewrite (dict_update_fresh d k v Hk).
    rewrite IH; rewrite <- app_assoc; [reflexivity | exact H].
Qed.

Lemma existsb_absent (k v : string) (d : py_dict) :
  ~ In k (map fst d) ->
  existsb (fun p => String.eqb (fst p) k && String.eqb (snd p) v) d = false.
Proof.
  induction d as [| [k0 v0] rest IH]; cbn [existsb map fst snd In]; intros H;
    [reflexivity |].
  destruct (String.eqb k0 k) eqn:E0.
  - apply String.eqb_eq in E0. exfalso. apply H. now left.
  - cbn [andb orb]. apply IH. intros Hin. apply H. now right.
Qed.

(** In a dictionary, the tag test is a look-up. *)
Lemma has_tag_get (k v : string) (d : py_dict) :
  NoDup (map fst d) ->
  (has_tag k v {| metadata_props := d |} = true <-> dict_get d k = Some v).
Proof.
  unfold has_tag. cbn [metadata_props].
  induction d as [| [k0 v0] rest IH]; cbn [existsb map fst snd dict_get]; intros H.
  - split; discriminate.
  - inversion H as [| ? ? Hnin Hrest]; subst.
    destruct (String.eqb k0 k) eqn:E0.
    + apply String.eqb_eq in E0. subst k0.
      rewrite (existsb_absent k v rest Hnin), orb_false_r. cbn [andb].
      rewrite String.eqb_eq. split; congruence.
    + cbn [andb orb]. now apply IH.
Qed.

Lemma last_value_get (k : string) (d : py_dict) :
  NoDup (map fst d) -> last_value k d = dict_get d k.
Proof.
  induction d as [| [k0 v0] rest IH]; intros H; [reflexivity |].
  inversion H as [| ? ? Hnin Hrest]; subst.
  unfold last_value. cbn [fold_left fst snd dict_get].
  rewrite last_value_acc, (IH Hrest).
  destruct (String.eqb k0 k) eqn:E0; [| now destruct (dict_get rest k)].
  apply String.eqb_eq in E0. subst k0.
  assert (Hn : dict_get rest k = None).
  { clear -Hnin. induction rest as [| [k1 v1] r IHr]; [reflexivity |].
    cbn [dict_get]. destruct (String.eqb k1 k) eqn:E1.
    - apply String.eqb_eq in E1. exfalso. apply Hnin. now left.
    - apply IHr. intros Hin. apply Hnin. now right. }
  now rewrite Hn.
Qed.

Lemma tagged_NoDup (k v : string) (model : ModelProto) :
  NoDup (map fst (metadata_props (tagged k v model))).
Proof.
  unfold tagged. cbn [metadata_props]. apply fold_update_NoDup.
  repeat constructor. intros [].
Qed.

Lemma tagged_get (k v k' : string) (model : ModelProto) :
  dict_get (metadata_props (tagged k v model)) k'
  = match last_value k' (metadata_props model) with
    | Some v' => Some v'
    | None => if String.eqb k k' then Some v else None
    end.
Proof. unfold tagged. cbn [metadata_props]. apply fold_update_get. Qed.

Lemma tagged_head (k v : string) (model : ModelProto) :
  exists v0 rest, metadata_props (tagged k v model) = (k, v0) :: rest.
Proof.
  unfold tagged. cbn [metadata_props].
  assert (H : forall props d v1 r,
    d = (k, v1) :: r ->
    exists v0 rest,
      fold_left (fun d p => dict_update d (fst p) (snd p)) props d = (k, v0) :: rest).
  { induction props as [| p ps IH]; intros d v1 r ->;
      [eexists _, _; reflexivity |].
    cbn [fold_left dict_update].
    destruct (String.eqb k (fst p)); eapply IH; reflexivity. }
  eapply H. reflexivity.
Qed.

Lemma tagged_idempotent (k v : string) (model : ModelProto) :
  tagged k v (tagged k v model) = tagged k v model.
Proof.
  pose proof (tagged_NoDup k v model) as Hnd.
  destruct (tagged_head k v model) as (v0 & rest & Hd).
  unfold tagged at 1. rewrite Hd in *. cbn [metadata_props fold_left dict_update fst snd].
  rewrite String.eqb_refl.
  rewrite (fold_update_append rest [(k, v0)]) by exact Hnd.
  destruct (tagged k v model) as [d]. cbn [metadata_props] in Hd. now subst d.
Qed.

Lemma add_pre_process_metadata_tagged (model : ModelProto) :
  add_pre_process_metadata model
  = tagged "onnx.quant.pre_process" "onnxruntime.quant" model.
Proof.
  unfold add_pre_process_metadata, tagged, set_model_props.
  now destruct (metadata_props model).
Qed.

Lemma add_infer_metadata_tagged (model : ModelProto) :
  add_infer_metadata model = tagged "onnx.infer" "onnxruntime.quant" model.
Proof.
  unfold add_infer_metadata, tagged, set_model_props.
  now destruct (metadata_props model).
Qed.

Lemma model_has_pre_process_metadata_tag (model : ModelProto) :
  model_has_pre_process_metadata model
  = has_tag "onnx.quant.pre_process" "onnxruntime.quant" model.
Proof.
  unfold model_has_pre_process_metadata, has_tag.
  now destruct (metadata_props model).
Qed.

Lemma model_has_infer_metadata_tag (model : ModelProto) :
  model_has_infer_metadata model = has_tag "onnx.infer" "onnxruntime.quant" model.
Proof.
  unfold model_has_infer_metadata, has_tag.
  now destruct (metadata_props model).
Qed.

Lemma has_tag_tagged (k v : string) (model : ModelProto) :
  has_tag k v (tagged k v model) = true
  <-> (forall v', last_value k (metadata_props model) = Some v' -> v' = v).
Proof.
  pose proof (tagged_NoDup k v model) as Hnd.
  pose proof (tagged_get k v k model) as Hg.
  destruct (tagged k v model) as [d]. cbn [metadata_props] in *.
  rewrite (has_tag_get k v d Hnd), Hg, String.eqb_refl.
  destruct (last_value k (metadata_props model)) as [v0 |].
  - split; [intros H v' Hv'; congruence |].
    intros H. now rewrite (H v0 eq_refl).
  - split; [discriminate | reflexivity].
Qed.

Lemma has_tag_other (k v k' v' : string) (model : ModelProto) :
  k <> k' ->
  NoDup (map fst (metadata_props model)) ->
  has_tag k' v' (tagged k v model) = has_tag k' v' model.
Proof.
  intros Hk Hm.
  pose proof (tagged_NoDup k v model) as Hnd.
  pose proof (tagged_get k v k' model) as Hg.
  rewrite (last_value_get k' _ Hm) in Hg.
  apply String.eqb_neq in Hk. rewrite Hk in Hg.
  assert (Hg' : dict_get (metadata_props (tagged k v model)) k'
                = dict_get (metadata_props model) k')
    by (rewrite Hg; now destruct (dict_get (metadata_props model) k')).
  destruct (tagged k v model) as [d]. destruct model as [m].
  cbn [metadata_props] in *.
  pose proof (has_tag_get k' v' d Hnd) as H1.
  pose proof (has_tag_get k' v' m Hm) as H2.
  rewrite Hg' in H1.
  destruct (has_tag k' v' {| metadata_props := d |});
    destruct (has_tag k' v' {| metadata_props := m |}); try reflexivity.
  - destruct H2 as [_ H2]. destruct H1 as [H1 _]. rewrite H2; auto.
  - destruct H2 as [H2 _]. destruct H1 as [_ H1]. rewrite H1; auto.
Qed.

(** X20: after [add_pre_process_metadata] the check
    [model_has_pre_process_metadata] holds, unless the model already
    carried the key with another value: the existing value overrides the
    tag and the check fails.  The same for [add_infer_metadata] and
    [model_has_infer_metadata]. *)
Theorem add_metadata_then_has (model : ModelProto) :
  (model_has_pre_process_metadata (add_pre_process_metadata model) = true
   <-> (forall v, last_value "onnx.quant.pre_process" (metadata_props model) = Some v ->
                  v = "onnxruntime.quant"%string))
  /\ (model_has_infer_metadata (add_infer_metadata model) = true
      <-> (forall v, last_value "onnx.infer" (metadata_props model) = Some v ->
                     v = "onnxruntime.quant"%string)).
Proof.
  rewrite add_pre_process_metadata_tagged, model_has_pre_process_metadata_tag.
  rewrite add_infer_metadata_tagged, model_has_infer_metadata_tag.
  split; apply has_tag_tagged.
Qed.

(** X21: [add_pre_process_metadata] and [add_infer_metadata] leave
    metadata with distinct keys, the tag key first, in which every key of
    the model keeps the value of its last entry and the tag key, when new,
    has the tag value. *)
Theorem add_metadata_keeps_entries (model : ModelProto) :
  let pre := metadata_props (add_pre_process_metadata model) in
  let inf := metadata_props (add_infer_metadata model) in
  (NoDup (map fst pre)
   /\ (exists v rest, pre = ("onnx.quant.pre_process"%string, v) :: rest)
   /\ forall k,
        dict_get pre k
        = match last_value k (metadata_props model) with
          | Some v => Some v
          | None =>
              if String.eqb "onnx.quant.pre_process" k
              then Some "onnxruntime.quant"%string else None
          end)
  /\ (NoDup (map fst inf)
      /\ (exists v rest, inf = ("onnx.infer"%string, v) :: rest)
      /\ forall k,
           dict_get inf k
           = match last_value k (metadata_props model) with
             | Some v => Some v
             | None =>
                 if String.eqb "onnx.infer" k
                 then Some "onnxruntime.quant"%string else None
             end).
Proof.
  cbv zeta. rewrite add_pre_process_metadata_tagged, add_infer_metadata_tagged.
  split; (split; [apply tagged_NoDup |]); (split; [apply tagged_head |]);
    intros k; apply tagged_get.
Qed.

(** X22: tagging twice is tagging once. *)
Theorem add_metadata_idempotent (model : ModelProto) :
  add_pre_process_metadata (add_pre_process_metadata model)
  = add_pre_process_metadata model
  /\ add_infer_metadata (add_infer_metadata model) = add_infer_metadata model.
Proof.
  rewrite !add_pre_process_metadata_tagged, !add_infer_metadata_tagged.
  split; apply tagged_idempotent.
Qed.

(** X23: on a model whose metadata keys are distinct, each tag leaves the
    check of the other one unchanged. *)
Theorem add_metadata_independent (model : ModelProto) :
  NoDup (map fst (metadata_props model)) ->
  model_has_pre_process_metadata (add_infer_metadata model)
  = model_has_pre_process_metadata model
  /\ model_has_infer_metadata (add_pre_process_metadata model)
     = model_has_infer_metadata model.
Proof.
  intros H.
  rewrite add_pre_process_metadata_tagged, add_infer_metadata_tagged.
  rewrite !model_has_pre_process_metadata_tag, !model_has_infer_metadata_tag.
  split; apply has_tag_other; try exact H; discriminate.
Qed.

Lemma add_metadata_independent_witness :
  model_has_pre_process_metadata
    (add_infer_metadata
       {| metadata_props := [("onnx.quant.pre_process", "onnxruntime.quant")]%string |})
  = model_has_pre_process_metadata
      {| metadata_props := [("onnx.quant.pre_process", "onnxruntime.quant")]%string |}.
Proof.
  apply (add_metadata_independent
           {| metadata_props := [("onnx.quant.pre_process", "onnxruntime.quant")]%string |}).
  cbn. repeat constructor. intros [].
Defined.

(** With a duplicated key the check can be lost: the dictionary keeps the
    last value only. *)
Example add_infer_metadata_drops_duplicate :
  let model :=
    {| metadata_props :=
         [("onnx.quant.pre_process", "onnxruntime.quant");
          ("onnx.quant.pre_process", "other")]%string |} in
  model_has_pre_process_metadata model = true
  /\ model_has_pre_process_metadata (add_infer_metadata model) = false.
Proof. split; reflexivity. Qed.

(** ** Tensor names *)

Lemma list_ascii_of_string_append (a b : string) :
  list_ascii_of_string (a ++ b)
  = (list_ascii_of_string a ++ list_ascii_of_string b)%list.
Proof.
  induction a as [| c a IH]; [reflexivity |]. cbn. now rewrite IH.
Qed.

Lemma list_ascii_of_string_inj (a b : string) :
  list_ascii_of_string a = list_ascii_of_string b -> a = b.
Proof.
  intros H. rewrite <- (string_of_list_ascii_of_string a),
              <- (string_of_list_ascii_of_string b). now rewrite H.
Qed.

Lemma firstn_app_short {A : Type} (n : nat) (l l' : list A) :
  (n <= List.length l)%nat -> firstn n (l ++ l') = firstn n l.
Proof.
  revert l. induction n as [| n IH]; intros l H; [reflexivity |].
  destruct l as [| x l]; [cbn in H; lia |].
  cbn. f_equal. apply IH. cbn in H. lia.
Qed.

(** Two names with the same suffix have the same stem. *)
Lemma append_same_suffix (a b s : string) :
  (a ++ s)%string = (b ++ s)%string -> a = b.
Proof.
  intros H. apply list_ascii_of_string_inj.
  apply (f_equal list_ascii_of_string) in H.
  rewrite !list_ascii_of_string_append in H.
  now apply app_inv_tail in H.
Qed.

(** If two names are equal, the shorter suffix ends the longer one. *)
Lemma append_suffix_clash (a b s t : string) :
  (a ++ s)%string = (b ++ t)%string ->
  (String.length s <= String.length t)%nat ->
  rev (list_ascii_of_string s)
  = firstn (String.length s) (rev (list_ascii_of_string t)).
Proof.
  intros H Hlen.
  apply (f_equal list_ascii_of_string) in H.
  rewrite !list_ascii_of_string_append in H.
  apply (f_equal (@rev _)) in H. rewrite !rev_app_distr in H.
  apply (f_equal (firstn (String.length s))) in H.
  assert (Hs : String.length s = List.length (rev (list_ascii_of_string s))).
  { rewrite length_rev. clear. induction s as [| c s IH]; cbn; congruence. }
  assert (Ht : String.length t = List.length (rev (list_ascii_of_string t))).
  { rewrite length_rev. clear. induction t as [| c t IH]; cbn; congruence. }
  rewrite firstn_app_short in H by lia.
  rewrite firstn_all2 in H by lia.
  rewrite (firstn_app_short _ (rev (list_ascii_of_string t))) in H by lia.
  exact H.
Qed.

(** X24: the names derived by the six suffix functions never collide:
    if one function applied to a tensor name gives the same string as
    another applied to another name, then it is the same function and the
    same tensor name. *)
Theorem suffix_names_determine (i j : nat) (F G : string -> string) (a b : string) :
  nth_error suffix_functions i = Some F ->
  nth_error suffix_functions j = Some G ->
  F a = G b ->
  i = j /\ a = b.
Proof.
  intros HF HG H. unfold suffix_functions in HF, HG.
  repeat (match type of HF with
          | nth_error _ ?n = _ => is_var n; destruct n; cbn in HF
          end);
    try discriminate HF;
    repeat (match type of HG with
            | nth_error _ ?n = _ => is_var n; destruct n; cbn in HG
            end);
    try discriminate HG;
    inversion HF; inversion HG; subst F G;
    unfold add_quant_suffix, add_quant_input_suffix, add_quant_output_suffix,
      add_dequant_suffix, add_dequant_input_suffix, add_dequant_output_suffix,
      QUANT_INPUT_SUFFIX, DEQUANT_OUTPUT_SUFFIX in H;
    first
      [ split; [reflexivity | exact (append_same_suffix _ _ _ H)]
      | exfalso; apply append_suffix_clash in H; [discriminate H | cbn; lia]
      | exfalso; symmetry in H; apply append_suffix_clash in H;
        [discriminate H | cbn; lia] ].
Qed.

Lemma suffix_names_determine_witness :
  1%nat = 1%nat /\ "conv1_w"%string = "conv1_w"%string.
Proof.
  apply (suffix_names_determine 1 1 add_quant_input_suffix add_quant_input_suffix
           "conv1_w" "conv1_w"); reflexivity.
Defined.
